(** * The dongle registry of [db/db.go], embedded and verified

    The package keeps one table, [dongles], in a ql database and offers
    [Migration], [CreateDongle], [UpdateDongle], [RemoveDongle], [GetDongle],
    [GetDongleByIMEI], [GetAllDongles], [GetDistinct], [GetSymlinkCandidate]
    and [DongleExists] over it.

    Layout of this file:
    - [utf8] and [json]: the parts of Go's [unicode/utf8] and [encoding/json]
      that [json.Marshal] and [json.Unmarshal] run on a [map[string]string];
    - [ql]: the table, its unique index and the statements the package sends;
    - the functions of [db.go], in the order of the source;
    - the theorems. *)

From Stdlib Require Import ZArith Lia List Bool Ascii String.
From stdpp Require Import base option list gmap strings sorting pretty.

Local Open Scope string_scope.
Local Open Scope Z_scope.

(** ** Go strings and byte slices

    A Go [string] and a [[]byte] are byte sequences: both are [string] here
    (a list of 8-bit [ascii]). *)

Definition byte_val (c : ascii) : Z := Z.of_N (N_of_ascii c).

Definition byte_of (z : Z) : ascii := ascii_of_N (Z.to_N z).

(** [s[n:]] and [s[:n]]. *)
Fixpoint string_drop (n : nat) (s : string) : string :=
  match n, s with
  | O, _ => s
  | S n', String _ t => string_drop n' t
  | S _, EmptyString => EmptyString
  end.

Fixpoint string_take (n : nat) (s : string) : string :=
  match n, s with
  | O, _ => EmptyString
  | S n', String c t => String c (string_take n' t)
  | S _, EmptyString => EmptyString
  end.

Definition quote_char : ascii := "034"%char.
Definition backslash : ascii := "\"%char.

(** ** unicode/utf8 *)
Module utf8.

Definition RuneError : Z := 0xFFFD.
Definition RuneSelf : Z := 0x80.
Definition MaxRune : Z := 0x10FFFF.

Definition surrogateMin : Z := 0xD800.
Definition surrogateMax : Z := 0xDFFF.

Definition maskx : Z := 0x3F.
Definition mask2 : Z := 0x1F.
Definition mask3 : Z := 0x0F.
Definition mask4 : Z := 0x07.

Definition locb : Z := 0x80.
Definition hicb : Z := 0xBF.

(** The entries of the table [first]: [as_] for ASCII, [xx] for a byte that
    starts no sequence, otherwise size in the low three bits and the index
    of the accepted range of the second byte in the high four. *)
Definition xx : Z := 0xF1.
Definition as_ : Z := 0xF0.
Definition s1 : Z := 0x02.
Definition s2 : Z := 0x13.
Definition s3 : Z := 0x03.
Definition s4 : Z := 0x23.
Definition s5 : Z := 0x34.
Definition s6 : Z := 0x04.
Definition s7 : Z := 0x44.

Definition first (b : Z) : Z :=
  if b <? 0x80 then as_
  else if b <? 0xC2 then xx
  else if b <? 0xE0 then s1
  else if b =? 0xE0 then s2
  else if b <? 0xED then s3
  else if b =? 0xED then s4
  else if b <? 0xF0 then s3
  else if b =? 0xF0 then s5
  else if b <? 0xF4 then s6
  else if b =? 0xF4 then s7
  else xx.

Definition acceptRanges (i : Z) : Z * Z :=
  match i with
  | 0 => (locb, hicb)
  | 1 => (0xA0, hicb)
  | 2 => (locb, 0x9F)
  | 3 => (0x90, hicb)
  | 4 => (locb, 0x8F)
  | _ => (0, 0)
  end.

(** [utf8.DecodeRuneInString]: the rune at the head of [s] and its width in
    bytes; [(RuneError, 1)] for an invalid encoding, [(RuneError, 0)] for the
    empty string. *)
Definition DecodeRuneInString (s : string) : Z * nat :=
  match s with
  | EmptyString => (RuneError, 0%nat)
  | String c0 t0 =>
    let b0 := byte_val c0 in
    let x := first b0 in
    if as_ <=? x then
      (* mask := rune(x) << 31 >> 31: all ones for [xx], zero for [as_] *)
      (if Z.odd x then RuneError else b0, 1%nat)
    else
      let sz := Z.land x 7 in
      let accept := acceptRanges (Z.shiftr x 4) in
      if Z.of_nat (String.length s) <? sz then (RuneError, 1%nat)
      else
        match t0 with
        | EmptyString => (RuneError, 1%nat)
        | String c1 t1 =>
          let b1 := byte_val c1 in
          if (b1 <? fst accept) || (snd accept <? b1) then (RuneError, 1%nat)
          else if sz <=? 2 then
            (Z.lor (Z.shiftl (Z.land b0 mask2) 6) (Z.land b1 maskx), 2%nat)
          else
            match t1 with
            | EmptyString => (RuneError, 1%nat)
            | String c2 t2 =>
              let b2 := byte_val c2 in
              if (b2 <? locb) || (hicb <? b2) then (RuneError, 1%nat)
              else if sz <=? 3 then
                (Z.lor (Z.lor (Z.shiftl (Z.land b0 mask3) 12)
                              (Z.shiftl (Z.land b1 maskx) 6))
                       (Z.land b2 maskx), 3%nat)
              else
                match t2 with
                | EmptyString => (RuneError, 1%nat)
                | String c3 _ =>
                  let b3 := byte_val c3 in
                  if (b3 <? locb) || (hicb <? b3) then (RuneError, 1%nat)
                  else
                    (Z.lor (Z.lor (Z.lor (Z.shiftl (Z.land b0 mask4) 18)
                                         (Z.shiftl (Z.land b1 maskx) 12))
                                  (Z.shiftl (Z.land b2 maskx) 6))
                           (Z.land b3 maskx), 4%nat)
                end
            end
        end
  end.

(** [utf8.EncodeRune]: the bytes of rune [r]; a surrogate or a rune out of
    range is written as [RuneError]. *)
Definition EncodeRune (r : Z) : string :=
  if (0 <=? r) && (r <=? 0x7F) then String (byte_of r) EmptyString
  else if (0 <=? r) && (r <=? 0x7FF) then
    String (byte_of (Z.lor 0xC0 (Z.shiftr r 6)))
      (String (byte_of (Z.lor 0x80 (Z.land r maskx))) EmptyString)
  else if (r <? 0) || (MaxRune <? r) || ((surrogateMin <=? r) && (r <=? surrogateMax)) then
    String (byte_of 0xEF) (String (byte_of 0xBF) (String (byte_of 0xBD) EmptyString))
  else if r <=? 0xFFFF then
    String (byte_of (Z.lor 0xE0 (Z.shiftr r 12)))
      (String (byte_of (Z.lor 0x80 (Z.land (Z.shiftr r 6) maskx)))
        (String (byte_of (Z.lor 0x80 (Z.land r maskx))) EmptyString))
  else
    String (byte_of (Z.lor 0xF0 (Z.shiftr r 18)))
      (String (byte_of (Z.lor 0x80 (Z.land (Z.shiftr r 12) maskx)))
        (String (byte_of (Z.lor 0x80 (Z.land (Z.shiftr r 6) maskx)))
          (String (byte_of (Z.lor 0x80 (Z.land r maskx))) EmptyString))).

(** [utf8.ValidString]: no position decodes to [(RuneError, 1)]. *)
Fixpoint ValidString_loop (fuel : nat) (s : string) : bool :=
  match fuel with
  | O => true
  | S fuel' =>
    match s with
    | EmptyString => true
    | String _ _ =>
      let '(r, size) := DecodeRuneInString s in
      if (r =? RuneError) && (size =? 1)%nat then false
      else ValidString_loop fuel' (string_drop size s)
    end
  end.

Definition ValidString (s : string) : bool :=
  ValidString_loop (String.length s) s.

End utf8.

(** ** unicode/utf16, as far as the JSON decoder uses it *)
Module utf16.

Definition surr1 : Z := 0xD800.
Definition surr2 : Z := 0xDC00.
Definition surr3 : Z := 0xE000.
Definition surrSelf : Z := 0x10000.
Definition replacementChar : Z := 0xFFFD.

Definition IsSurrogate (r : Z) : bool := (surr1 <=? r) && (r <? surr3).

Definition DecodeRune (r1 r2 : Z) : Z :=
  if (surr1 <=? r1) && (r1 <? surr2) && (surr2 <=? r2) && (r2 <? surr3)
  then Z.lor (Z.shiftl (r1 - surr1) 10) (r2 - surr2) + surrSelf
  else replacementChar.

End utf16.

(** ** encoding/json on a [map[string]string]

    [Marshal] follows [encodeState.string] (with [escapeHTML] set, as
    [json.Marshal] sets it) and the map encoder, which writes the entries
    sorted by key. A byte that is not part of a valid UTF-8 sequence is
    written as the escape of U+FFFD. (Later releases of Go write the bytes 8
    and 12 as backslash-b and backslash-f instead of a u-escape; the decoder
    reads both the same.) [Unmarshal] reads the compact texts that encoder
    writes: an object of string keys and string values, or [null]; on any
    other text it reports an error. *)
Module json.

Definition hex : string := "0123456789abcdef".

Definition hex_digit (n : Z) : ascii :=
  match String.get (Z.to_nat n) hex with
  | Some c => c
  | None => "0"%char
  end.

(** Bytes below [RuneSelf] that are copied as they are: printable ASCII
    except the quote, the backslash and the three [escapeHTML] bytes. *)
Definition safe (b : Z) : bool :=
  (0x20 <=? b) && negb (b =? 92) && negb (b =? 34)
  && negb (b =? 60) && negb (b =? 62) && negb (b =? 38).

Definition escape_byte (c : ascii) : string :=
  let b := byte_val c in
  if (b =? 92) || (b =? 34) then String backslash (String c EmptyString)
  else if b =? 10 then "\n"
  else if b =? 13 then "\r"
  else if b =? 9 then "\t"
  else "\u00" ++ String (hex_digit (Z.shiftr b 4))
                   (String (hex_digit (Z.land b 0xF)) EmptyString).

(** The loop [for i := 0; i < len(s); ] of [encodeState.string]; every
    round consumes at least one byte, so [length s] rounds are enough. *)
Fixpoint encode_loop (fuel : nat) (s : string) : string :=
  match fuel with
  | O => EmptyString
  | S fuel' =>
    match s with
    | EmptyString => EmptyString
    | String c t =>
      let b := byte_val c in
      if b <? utf8.RuneSelf then
        (if safe b then String c EmptyString else escape_byte c)
          ++ encode_loop fuel' t
      else
        let '(r, size) := utf8.DecodeRuneInString s in
        if (r =? utf8.RuneError) && (size =? 1)%nat then
          "\ufffd" ++ encode_loop fuel' t
        else if (r =? 0x2028) || (r =? 0x2029) then
          "\u202" ++ String (hex_digit (Z.land r 0xF))
                       (encode_loop fuel' (string_drop size s))
        else
          string_take size s ++ encode_loop fuel' (string_drop size s)
    end
  end.

Definition encode_string (s : string) : string :=
  String quote_char (encode_loop (String.length s) s ++ String quote_char EmptyString).

Definition encode_entry (kv : string * string) : string :=
  encode_string kv.1 ++ ":" ++ encode_string kv.2.

Fixpoint join_comma (l : list string) : string :=
  match l with
  | [] => EmptyString
  | [x] => x
  | x :: l' => x ++ "," ++ join_comma l'
  end.

(** The order in which the map encoder writes the entries. *)
Definition key_le (a b : string * string) : Prop := String.leb a.1 b.1 = true.

#[global] Instance key_le_dec a b : Decision (key_le a b).
Proof. unfold key_le. apply _. Defined.

Definition sorted_entries (m : gmap string string) : list (string * string) :=
  merge_sort key_le (map_to_list m).

(** [json.Marshal(m)] for a non-nil [m]; it cannot fail on this type. *)
Definition Marshal (m : gmap string string) : string :=
  "{" ++ join_comma (encode_entry <$> sorted_entries m) ++ "}".

Definition hexval (c : ascii) : Z :=
  let b := byte_val c in
  if (48 <=? b) && (b <=? 57) then b - 48
  else if (97 <=? b) && (b <=? 102) then b - 97 + 10
  else if (65 <=? b) && (b <=? 70) then b - 65 + 10
  else -1.

(** [getu4]: the rune of a leading [\uXXXX], or [-1]. *)
Definition getu4 (s : string) : Z :=
  match s with
  | String c0 (String c1 (String h0 (String h1 (String h2 (String h3 _))))) =>
    if (c0 =? backslash)%char && (c1 =? "u")%char then
      let d0 := hexval h0 in
      let d1 := hexval h1 in
      let d2 := hexval h2 in
      let d3 := hexval h3 in
      if (d0 <? 0) || (d1 <? 0) || (d2 <? 0) || (d3 <? 0) then -1
      else ((d0 * 16 + d1) * 16 + d2) * 16 + d3
    else -1
  | _ => -1
  end.

(** The decoded bytes [pre] put in front of what the rest of the literal
    decodes to. *)
Definition prepend (pre : string) (o : option (string * string))
  : option (string * string) :=
  match o with
  | Some (out, after) => Some (pre ++ out, after)
  | None => None
  end.

(** [unquote], run from just after the opening quote: the decoded string
    and the text after the closing quote. *)
Fixpoint unquote_loop (fuel : nat) (s : string) : option (string * string) :=
  match fuel with
  | O => None
  | S fuel' =>
    match s with
    | EmptyString => None
    | String c t =>
      let b := byte_val c in
      if b =? 34 then Some (EmptyString, t)
      else if b =? 92 then
        match t with
        | EmptyString => None
        | String e t' =>
          match byte_val e with
          | 34 | 92 | 47 => prepend (String e EmptyString) (unquote_loop fuel' t')
          | 98 => prepend (String "008"%char EmptyString) (unquote_loop fuel' t')
          | 102 => prepend (String "012"%char EmptyString) (unquote_loop fuel' t')
          | 110 => prepend (String "010"%char EmptyString) (unquote_loop fuel' t')
          | 114 => prepend (String "013"%char EmptyString) (unquote_loop fuel' t')
          | 116 => prepend (String "009"%char EmptyString) (unquote_loop fuel' t')
          | 117 =>
            let rr := getu4 s in
            if rr <? 0 then None
            else
              let s' := string_drop 6 s in
              if utf16.IsSurrogate rr then
                let dec := utf16.DecodeRune rr (getu4 s') in
                if negb (dec =? utf16.replacementChar) then
                  prepend (utf8.EncodeRune dec)
                          (unquote_loop fuel' (string_drop 6 s'))
                else
                  prepend (utf8.EncodeRune utf16.replacementChar)
                          (unquote_loop fuel' s')
              else prepend (utf8.EncodeRune rr) (unquote_loop fuel' s')
          | _ => None
          end
        end
      else if b <? 0x20 then None
      else if b <? utf8.RuneSelf then
        prepend (String c EmptyString) (unquote_loop fuel' t)
      else
        let '(rr, size) := utf8.DecodeRuneInString s in
        prepend (utf8.EncodeRune rr) (unquote_loop fuel' (string_drop size s))
    end
  end.

Definition unquote (s : string) : option (string * string) :=
  unquote_loop (S (String.length s)) s.

(** The members of an object, from the opening quote of a key on; a key that
    comes twice keeps its last value. *)
Fixpoint object_loop (fuel : nat) (s : string) (m : gmap string string)
  : option (gmap string string) :=
  match fuel with
  | O => None
  | S fuel' =>
    match s with
    | String q t =>
      if (q =? quote_char)%char then
        match unquote t with
        | Some (k, String colon (String q' t')) =>
          if (colon =? ":")%char && (q' =? quote_char)%char then
            match unquote t' with
            | Some (v, String sep rest) =>
              if (sep =? ",")%char then object_loop fuel' rest (<[k:=v]> m)
              else if (sep =? "}")%char then
                match rest with
                | EmptyString => Some (<[k:=v]> m)
                | String _ _ => None
                end
              else None
            | _ => None
            end
          else None
        | _ => None
        end
      else None
    | EmptyString => None
    end
  end.

(** [json.Unmarshal(data, &m)] with [m] nil before the call: the value of [m]
    afterwards ([None] is the nil map), or [None] for an error. *)
Definition Unmarshal (data : string) : option (option (gmap string string)) :=
  if String.eqb data "null" then Some None
  else
    match data with
    | String c t =>
      if (c =? "{")%char then
        if String.eqb t "}" then Some (Some ∅)
        else
          match object_loop (String.length t) t ∅ with
          | Some m => Some (Some m)
          | None => None
          end
      else None
    | EmptyString => None
    end.

End json.


(** ** The store: ql's view of the table [dongles]

    The engine is outside the package; what the package relies on is modelled
    here, statement by statement. Rows are kept in storage order, the order in
    which [select * from dongles] yields them; a new row is linked in front
    of the older ones, as ql does, and where a result depends on that order
    the theorem gives it for the opposite order as well. Every column is written from a Go value that cannot be
    NULL except [properties], which receives a nil [[]byte] for a nil map. *)
Module ql.

Record Row := mkRow {
  imei : string;
  imsi : string;
  path : string;
  symlink : bool;
  tty : Z;
  ati : string;
  properties : option string;
  created_on : Z;
  updated_on : Z
}.

(** The handle [*sql.DB] with the state behind it: whether it was closed,
    whether the table [dongles] and the index [UQE_dongels] exist, and the
    rows of the table. *)
Record DB := mkDB {
  closed : bool;
  has_table : bool;
  has_index : bool;
  rows : list Row
}.

(** The errors the engine and [database/sql] hand back to the package. *)
Inductive error :=
| ErrDatabaseClosed   (* sql: database is closed *)
| ErrTableNotExist    (* table dongles does not exist *)
| ErrIndexExists      (* the table already has an index named UQE_dongels *)
| ErrDuplicate        (* duplicate value in the unique index *)
| ErrNoRows           (* sql.ErrNoRows *)
| ErrScanNull         (* Scan: NULL cannot be stored in an int *)
| ErrJSON             (* json.Unmarshal failed *)
| PanicIndex.         (* not an error value: index out of range *)

Inductive result (A : Type) :=
| Ok (a : A)
| Err (e : error).
Arguments Ok {A} a.
Arguments Err {A} e.

Definition bind {A B} (r : result A) (f : A → result B) : result B :=
  match r with
  | Ok a => f a
  | Err e => Err e
  end.

Fixpoint mapM {A B} (f : A → result B) (l : list A) : result (list B) :=
  match l with
  | [] => Ok []
  | x :: l' =>
    bind (f x) (λ y, bind (mapM f l') (λ ys, Ok (y :: ys)))
  end.

(** The statements of the package. The arguments are the values bound to
    [$1], [$2], ... and the values of the calls of [now()]. *)
Inductive stmt :=
| CreateTableIfNotExists
    (* CREATE TABLE IF NOT EXISTS dongles(...) *)
| CreateUniqueIndex
    (* CREATE UNIQUE INDEX UQE_dongels on dongles(path) *)
| Insert (r : Row)
    (* INSERT INTO dongles (...) VALUES ($1,...,$7,now(),now()) *)
| Update (a1 a2 a3 : string) (a4 : bool) (a5 : Z) (a6 : option string)
         (a7 : Z) (now : Z)
    (* UPDATE dongles imei=$1,imsi=$2,path=$3,symlink=$4,tty=$5,
       properties=$6,created_on=$7,updated_on=now(),
       WHERE path=$3&&imei=$1
       (in ql's grammar SET is optional and the assignment list may end
       in a comma; the column ati is not assigned) *)
| Delete (a1 : string).
    (* DELETE FROM dongles WHERE imei=$1 *)

Definition set_rows (db : DB) (l : list Row) : DB :=
  {| closed := closed db; has_table := has_table db;
     has_index := has_index db; rows := l |}.

Definition update_row (a1 a2 a3 : string) (a4 : bool) (a5 : Z)
    (a6 : option string) (a7 : Z) (now : Z) (r : Row) : Row :=
  if bool_decide (path r = a3) && bool_decide (imei r = a1) then
    {| imei := a1; imsi := a2; path := a3; symlink := a4; tty := a5;
       ati := ati r; properties := a6; created_on := a7; updated_on := now |}
  else r.

Definition exec_stmt (s : stmt) (db : DB) : result DB :=
  match s with
  | CreateTableIfNotExists =>
    if has_table db then Ok db
    else Ok {| closed := closed db; has_table := true;
               has_index := has_index db; rows := [] |}
  | CreateUniqueIndex =>
    if has_index db then Err ErrIndexExists
    else if negb (has_table db) then Err ErrTableNotExist
    else if bool_decide (NoDup (path <$> rows db)) then
      Ok {| closed := closed db; has_table := has_table db;
            has_index := true; rows := rows db |}
    else Err ErrDuplicate
  | Insert r =>
    if negb (has_table db) then Err ErrTableNotExist
    else if has_index db && bool_decide (path r ∈ path <$> rows db)
    then Err ErrDuplicate
    else Ok (set_rows db (r :: rows db))
  | Update a1 a2 a3 a4 a5 a6 a7 now =>
    if negb (has_table db) then Err ErrTableNotExist
    else Ok (set_rows db (update_row a1 a2 a3 a4 a5 a6 a7 now <$> rows db))
  | Delete a1 =>
    if negb (has_table db) then Err ErrTableNotExist
    else Ok (set_rows db (filter (λ r, imei r ≠ a1) (rows db)))
  end.

(** [tx.Exec] of a statement list: the statements in turn, stopping at the
    first that fails. *)
Fixpoint Exec (l : list stmt) (tx : DB) : result DB :=
  match l with
  | [] => Ok tx
  | s :: l' => bind (exec_stmt s tx) (Exec l')
  end.

(** [db.Begin()]. *)
Definition Begin (db : DB) : result DB :=
  if closed db then Err ErrDatabaseClosed else Ok db.

(** The pattern shared by the writers of the package:
    [tx, err := db.Begin(); _, err = tx.Exec(query, ...);
     if err != nil { tx.Rollback(); return err }; return tx.Commit()].
    A rollback leaves the store as it was at [Begin]. *)
Definition transaction (l : list stmt) (db : DB) : DB * option error :=
  match Begin db with
  | Err e => (db, Some e)
  | Ok tx =>
    match Exec l tx with
    | Err e => (db, Some e)
    | Ok tx' => (tx', None)
    end
  end.

(** [db.Query] and [db.QueryRow] reach the table only on an open handle. *)
Definition table (db : DB) : result (list Row) :=
  if closed db then Err ErrDatabaseClosed
  else if negb (has_table db) then Err ErrTableNotExist
  else Ok (rows db).

(** [SELECT * from dongles WHERE path=$1 LIMIT 1] *)
Definition select_by_path (db : DB) (a1 : string) : result (option Row) :=
  bind (table db) (λ l, Ok (head (filter (λ r, path r = a1) l))).

(** [SELECT * from dongles WHERE imei=$1 LIMIT 1] *)
Definition select_by_imei (db : DB) (a1 : string) : result (option Row) :=
  bind (table db) (λ l, Ok (head (filter (λ r, imei r = a1) l))).

(** The aggregate [min] over a list of values: NULL ([None]) over none. *)
Fixpoint min_of (l : list Z) : option Z :=
  match l with
  | [] => None
  | x :: l' =>
    match min_of l' with
    | None => Some x
    | Some y => Some (Z.min x y)
    end
  end.

(** [select min(tty) from dongles where imei=$1]: one row, holding NULL when
    no row of the table matches. *)
Definition select_min_tty (db : DB) (a1 : string) : result (option Z) :=
  bind (table db) (λ l, Ok (min_of (tty <$> filter (λ r, imei r = a1) l))).

(** [select count( * ) from dongles where imei=$1&&imsi=$2&&path=$3] *)
Definition select_count (db : DB) (a1 a2 a3 : string) : result Z :=
  bind (table db) (λ l,
    Ok (Z.of_nat (length
      (filter (λ r, imei r = a1 ∧ imsi r = a2 ∧ path r = a3) l)))).

End ql.

Export ql (result, Ok, Err, error).

(** ** db.go *)

(** [type Dongle struct]. A nil [Properties] is [None]; [time.Time] is an
    instant, a number. *)
Record Dongle := mkDongle {
  IMEI : string;
  IMSI : string;
  Path : string;
  IsSymlinked : bool;
  TTY : Z;
  ATI : string;
  Properties : option (gmap string string);
  CreatedOn : Z;
  UpdatedOn : Z
}.

(** [func (a Dongles) Less(i, j int) bool { return a[i].TTY < a[j].TTY }] *)
Definition Less (x y : Dongle) : bool := TTY x <? TTY y.

(** [const migrationSQL], between its BEGIN TRANSACTION and COMMIT. *)
Definition migrationSQL : list ql.stmt :=
  [ql.CreateTableIfNotExists; ql.CreateUniqueIndex].

Definition Migration (db : ql.DB) : ql.DB * option error :=
  ql.transaction migrationSQL db.

(** [sql.Open("ql-mem", name)]: a fresh, empty database in memory. *)
Definition sql_Open : ql.DB :=
  {| ql.closed := false; ql.has_table := false; ql.has_index := false;
     ql.rows := [] |}.

Definition dbWIthName : result ql.DB :=
  let db := sql_Open in
  match Migration db with
  | (_, Some err) => Err err
  | (db', None) => Ok db'
  end.

Definition DB : result ql.DB := dbWIthName.

(** [rows.Scan(&d.IMEI, ..., &prop, ...)] followed by
    [if prop != nil { err = json.Unmarshal(prop, &d.Properties) }]. *)
Definition scan (r : ql.Row) : result Dongle :=
  let d p := {| IMEI := ql.imei r; IMSI := ql.imsi r; Path := ql.path r;
                IsSymlinked := ql.symlink r; TTY := ql.tty r; ATI := ql.ati r;
                Properties := p;
                CreatedOn := ql.created_on r; UpdatedOn := ql.updated_on r |} in
  match ql.properties r with
  | None => Ok (d None)
  | Some prop =>
    match json.Unmarshal prop with
    | Some p => Ok (d p)
    | None => Err ql.ErrJSON
    end
  end.

Definition GetAllDongles (db : ql.DB) : result (list Dongle) :=
  ql.bind (ql.table db) (ql.mapM scan).

(** One round of the first loop of [GetDistinct]: the append of the [if] is
    followed, with no [else], by the store of the one-element group. *)
Definition group_step (s : gmap string (list Dongle)) (d : Dongle)
  : gmap string (list Dongle) :=
  let s' :=
    match s !! IMEI d with
    | Some v => <[IMEI d := (v ++ [d])%list]> s
    | None => s
    end in
  <[IMEI d := [d]]> s'.

Section GetDistinct.

(** [sort.Sort] on a [Dongles]; it is not stable, so which of two entries
    with equal [TTY] comes first is the library's choice. *)
Variable sort_Sort : list Dongle → list Dongle.

(** [range s] visits the keys in an order Go leaves open; [map_to_list] is
    one such order. *)
Definition GetDistinct (db : ql.DB) : result (list Dongle) :=
  ql.bind (GetAllDongles db) (λ a,
    if (length a =? 0)%nat then Ok a
    else
      let s := foldl group_step ∅ a in
      let s := sort_Sort <$> s in
      match mapM (λ kv : string * list Dongle, head kv.2) (map_to_list s) with
      | Some out => Ok out
      | None => Err ql.PanicIndex
      end).

End GetDistinct.

(** An implementation of [sort.Sort] for [Dongles]: insertion by [Less]. *)
Fixpoint insert_sorted (d : Dongle) (l : list Dongle) : list Dongle :=
  match l with
  | [] => [d]
  | x :: l' => if Less x d then x :: insert_sorted d l' else d :: l
  end.

Definition insertion_sort (l : list Dongle) : list Dongle :=
  foldr insert_sorted [] l.

(** [prop] of [CreateDongle] and [UpdateDongle]: nil unless the map is not. *)
Definition marshal_properties (d : Dongle) : option string :=
  json.Marshal <$> Properties d.

(** [now1] and [now2] are the values of the two calls of [now()]. *)
Definition CreateDongle (now1 now2 : Z) (db : ql.DB) (d : Dongle)
  : ql.DB * option error :=
  let prop := marshal_properties d in
  ql.transaction
    [ql.Insert {| ql.imei := IMEI d; ql.imsi := IMSI d; ql.path := Path d;
                  ql.symlink := IsSymlinked d; ql.tty := TTY d;
                  ql.ati := ATI d; ql.properties := prop;
                  ql.created_on := now1; ql.updated_on := now2 |}] db.

Definition UpdateDongle (now : Z) (db : ql.DB) (d : Dongle)
  : ql.DB * option error :=
  let prop := marshal_properties d in
  ql.transaction
    [ql.Update (IMEI d) (IMSI d) (Path d) (IsSymlinked d) (TTY d) prop
               (CreatedOn d) now] db.

Definition RemoveDongle (db : ql.DB) (d : Dongle) : ql.DB * option error :=
  ql.transaction [ql.Delete (IMEI d)] db.

(** [QueryRow(...).Scan(...)]: [sql.ErrNoRows] when the query has no row. *)
Definition scan_one (q : result (option ql.Row)) : result Dongle :=
  ql.bind q (λ o,
    match o with
    | Some r => scan r
    | None => Err ql.ErrNoRows
    end).

Definition GetDongle (db : ql.DB) (path : string) : result Dongle :=
  scan_one (ql.select_by_path db path).

Definition GetDongleByIMEI (db : ql.DB) (imei : string) : result Dongle :=
  scan_one (ql.select_by_imei db imei).

(** [fmt.Sprintf("/dev/ttyUSB%d", tty)] *)
Definition Sprintf_ttyUSB (tty : Z) : string := "/dev/ttyUSB" +:+ pretty tty.

Definition GetSymlinkCandidate (db : ql.DB) (imei : string) : result Dongle :=
  ql.bind (ql.select_min_tty db imei) (λ v,
    match v with
    | None => Err ql.ErrScanNull
    | Some tty => GetDongle db (Sprintf_ttyUSB tty)
    end).

(** [DongleExists] with what it hands to [log.Error]. *)
Definition DongleExists_logged (db : ql.DB) (modem : Dongle) : bool * list error :=
  match ql.select_count db (IMEI modem) (IMSI modem) (Path modem) with
  | Err err => (false, [err])
  | Ok count => (0 <? count, [])
  end.

Definition DongleExists (db : ql.DB) (modem : Dongle) : bool :=
  (DongleExists_logged db modem).1.

(** ** The vocabulary of the specification *)

(** The error taxonomy of the specification, and the class of each error the
    package can return: a closed handle or a missing table is a storage
    error, a lookup or an aggregate that finds no row is [NotFound]. *)
Inductive ErrorKind :=
| SchemaError
| ConstraintViolation
| NotFound
| SerializationError
| StorageError.

Definition kind_of (e : error) : option ErrorKind :=
  match e with
  | ql.ErrDatabaseClosed | ql.ErrTableNotExist => Some StorageError
  | ql.ErrIndexExists => Some SchemaError
  | ql.ErrDuplicate => Some ConstraintViolation
  | ql.ErrNoRows | ql.ErrScanNull => Some NotFound
  | ql.ErrJSON => Some SerializationError
  | ql.PanicIndex => None
  end.

(** The state in which [dbWIthName] hands out the handle: open, with the
    table and its unique index. *)
Definition ready (db : ql.DB) : Prop :=
  ql.closed db = false ∧ ql.has_table db = true ∧ ql.has_index db = true.

(** [GetCanonicalPort] as the specification words it, for a host that names
    its ports [prefix] followed by the index: the minimum index of the
    device, the path rebuilt from it, the binding at that path. *)
Definition GetCanonicalPort_spec (prefix : string) (db : ql.DB)
    (physicalID : string) : result Dongle :=
  match ql.min_of (ql.tty <$> filter (λ r, ql.imei r = physicalID) (ql.rows db)) with
  | None => Err ql.ErrNoRows
  | Some index => GetDongle db (prefix +:+ pretty index)
  end.

(** Two outcomes the specification does not tell apart: the same binding, or
    errors of the same class. *)
Definition same_outcome (r1 r2 : result Dongle) : Prop :=
  match r1, r2 with
  | Ok d1, Ok d2 => d1 = d2
  | Err e1, Err e2 => kind_of e1 = kind_of e2
  | _, _ => False
  end.

(** What the specification says of [Update] on a row it matches: every
    mutable field is rewritten from the argument, [UpdatedAt] is the time of
    the call and [CreatedAt] stays as the row had it. *)
Definition Update_rewrites (now : Z) (d : Dongle) (r r' : ql.Row) : Prop :=
  ql.imsi r' = IMSI d ∧ ql.symlink r' = IsSymlinked d ∧ ql.tty r' = TTY d
  ∧ ql.ati r' = ATI d ∧ ql.properties r' = marshal_properties d
  ∧ ql.updated_on r' = now ∧ ql.created_on r' = ql.created_on r.

(** The keys and the values of [Properties] are valid UTF-8, so that
    [json.Marshal] writes them without replacing a byte. *)
Definition valid_properties (d : Dongle) : bool :=
  match Properties d with
  | None => true
  | Some m =>
    forallb (λ kv : string * string,
               utf8.ValidString kv.1 && utf8.ValidString kv.2)
            (map_to_list m)
  end.

(** ** Example stores *)

Definition binding (imei path : string) (tty : Z) : Dongle :=
  {| IMEI := imei; IMSI := "640021234567890"; Path := path;
     IsSymlinked := false; TTY := tty; ATI := "Manufacturer: huawei";
     Properties := None; CreatedOn := 0; UpdatedOn := 0 |}.

(** The store after [DB()]. *)
Definition store0 : ql.DB := (Migration sql_Open).1.

(** Device A on ports 2 and 0 and device B on port 1. *)
Definition storeAB : ql.DB :=
  let db1 := (CreateDongle 1 1 store0 (binding "A" "/dev/ttyUSB2" 2)).1 in
  let db2 := (CreateDongle 2 2 db1 (binding "A" "/dev/ttyUSB0" 0)).1 in
  (CreateDongle 3 3 db2 (binding "B" "/dev/ttyUSB1" 1)).1.

(** Device A seen on ports 1, 0 and 2, in that order. *)
Definition store3 : ql.DB :=
  let db1 := (CreateDongle 1 1 store0 (binding "A" "/dev/ttyUSB1" 1)).1 in
  let db2 := (CreateDongle 2 2 db1 (binding "A" "/dev/ttyUSB0" 0)).1 in
  (CreateDongle 3 3 db2 (binding "A" "/dev/ttyUSB2" 2)).1.

(** A binding with properties as udev reports them. *)
Definition binding_E173 : Dongle :=
  {| IMEI := "A"; IMSI := "640021234567890"; Path := "/dev/ttyUSB0";
     IsSymlinked := false; TTY := 0; ATI := "Manufacturer: huawei";
     Properties := Some (<["ID_MODEL" := "E173"]> (<["ID_VENDOR" := "HUAWEI"]> ∅));
     CreatedOn := 0; UpdatedOn := 0 |}.

(** A binding with a property value that is not UTF-8: the byte FF. *)
Definition binding_FF : Dongle :=
  {| IMEI := "A"; IMSI := "640021234567890"; Path := "/dev/ttyUSB0";
     IsSymlinked := false; TTY := 0; ATI := "Manufacturer: huawei";
     Properties := Some (<["ID_MODEL" := String "255"%char EmptyString]> ∅);
     CreatedOn := 0; UpdatedOn := 0 |}.

(** A host whose modems are ACM devices. *)
Definition storeACM : ql.DB :=
  (CreateDongle 1 1 store0 (binding "A" "/dev/ttyACM0" 0)).1.

(** ** More of the package and of its use *)

(** [type Dongles []*Dongle] with the methods of [sort.Interface]. An index
    out of range panics: [None]. In [Swap] the right-hand side is read
    before [a[i]] and then [a[j]] are assigned. *)
Definition Len (a : list Dongle) : nat := length a.

Definition Swap (a : list Dongle) (i j : nat) : option (list Dongle) :=
  match a !! i, a !! j with
  | Some x, Some y => Some (<[j:=x]> (<[i:=y]> a))
  | _, _ => None
  end.

Definition Less_at (a : list Dongle) (i j : nat) : option bool :=
  match a !! i, a !! j with
  | Some x, Some y => Some (Less x y)
  | _, _ => None
  end.

(** The stores a client of the package can hold: the one [DB()] returns and
    those the writers of the package leave, whether they succeed or fail. *)
Inductive reachable : ql.DB → Prop :=
| reachable_DB db :
    DB = Ok db → reachable db
| reachable_Migration db :
    reachable db → reachable (Migration db).1
| reachable_CreateDongle now1 now2 db d :
    reachable db → reachable (CreateDongle now1 now2 db d).1
| reachable_UpdateDongle now db d :
    reachable db → reachable (UpdateDongle now db d).1
| reachable_RemoveDongle db d :
    reachable db → reachable (RemoveDongle db d).1.

(** What [CreateDongle] stores of a binding and [rows.Scan] reads back: the
    fields of [d] with the two time stamps of the insert. *)
Definition stamped (now1 now2 : Z) (d : Dongle) : Dongle :=
  {| IMEI := IMEI d; IMSI := IMSI d; Path := Path d;
     IsSymlinked := IsSymlinked d; TTY := TTY d; ATI := ATI d;
     Properties := Properties d; CreatedOn := now1; UpdatedOn := now2 |}.

(** * Theorems *)

(** ** The store *)

Lemma table_ready db : ready db → ql.table db = Ok (ql.rows db).
Proof. intros (Hc & Ht & _). unfold ql.table. by rewrite Hc, Ht. Qed.

(** A failed transaction leaves the store as it was. *)
Lemma transaction_rollback l db db' e :
  ql.transaction l db = (db', Some e) → db' = db.
Proof.
  unfold ql.transaction. destruct (ql.Begin db) as [tx|]; [|congruence].
  destruct (ql.Exec l tx); congruence.
Qed.

Lemma Migration_ready db db' :
  ql.closed db = false → Migration db = (db', None) → ready db'.
Proof.
  intros Hc. unfold Migration, ql.transaction, ql.Begin. rewrite Hc. simpl.
  destruct (ql.has_table db) eqn:Ht; simpl.
  - destruct (ql.has_index db); simpl; [done|]. rewrite Ht. simpl.
    case_bool_decide; [|done]. intros [= <-]. by repeat split.
  - destruct (ql.has_index db); simpl; [done|].
    intros [= <-]. by repeat split.
Qed.

Lemma store0_ready : ready store0.
Proof. by repeat split. Qed.

Lemma DB_store0 : DB = Ok store0.
Proof. reflexivity. Qed.

Lemma CreateDongle_ready now1 now2 db d : ready db → ready (CreateDongle now1 now2 db d).1.
Proof.
  intros (Hc & Ht & Hi). unfold CreateDongle, ql.transaction, ql.Begin.
  rewrite Hc. simpl. rewrite Ht, Hi. simpl.
  case_bool_decide; simpl; by repeat split.
Qed.

Lemma UpdateDongle_ready now db d : ready db → ready (UpdateDongle now db d).1.
Proof.
  intros (Hc & Ht & Hi). unfold UpdateDongle, ql.transaction, ql.Begin.
  rewrite Hc. simpl. rewrite Ht. simpl. by repeat split.
Qed.

Lemma RemoveDongle_ready db d : ready db → ready (RemoveDongle db d).1.
Proof.
  intros (Hc & Ht & Hi). unfold RemoveDongle, ql.transaction, ql.Begin.
  rewrite Hc. simpl. rewrite Ht. simpl. by repeat split.
Qed.

(** What a successful [CreateDongle] does to the store. *)
Lemma CreateDongle_success now1 now2 db d db' :
  CreateDongle now1 now2 db d = (db', None) →
  ql.closed db = false ∧ ql.has_table db = true
  ∧ db' = ql.set_rows db
      ({| ql.imei := IMEI d; ql.imsi := IMSI d; ql.path := Path d;
          ql.symlink := IsSymlinked d; ql.tty := TTY d; ql.ati := ATI d;
          ql.properties := marshal_properties d;
          ql.created_on := now1; ql.updated_on := now2 |} :: ql.rows db).
Proof.
  unfold CreateDongle, ql.transaction, ql.Begin.
  destruct (ql.closed db); [done|]. simpl.
  destruct (ql.has_table db); simpl; [|done].
  destruct (ql.has_index db && _); simpl; [done|].
  intros [= <-]. done.
Qed.

(** With the index in place an insert on a taken path is refused. *)
Lemma CreateDongle_taken now1 now2 db d :
  ready db → Path d ∈ ql.path <$> ql.rows db →
  CreateDongle now1 now2 db d = (db, Some ql.ErrDuplicate).
Proof.
  intros (Hc & Ht & Hi) Hin. unfold CreateDongle, ql.transaction, ql.Begin.
  rewrite Hc. simpl. rewrite Ht, Hi. simpl.
  by rewrite bool_decide_eq_true_2.
Qed.

(** C3. Two bindings with the same PortPath and different PhysicalID: once
    the insert of the first has succeeded on a store with the schema of
    [migrationSQL], the insert of the second fails, the error is a
    ConstraintViolation, and the store is the one the first insert left. *)
Theorem CreateDongle_unique_path (now1 now2 now3 now4 : Z) (db db1 : ql.DB)
    (b1 b2 : Dongle) :
  ready db →
  Path b1 = Path b2 → IMEI b1 ≠ IMEI b2 →
  CreateDongle now1 now2 db b1 = (db1, None) →
  CreateDongle now3 now4 db1 b2 = (db1, Some ql.ErrDuplicate)
  ∧ kind_of ql.ErrDuplicate = Some ConstraintViolation.
Proof.
  intros Hr Hp _ H1. split; [|done].
  assert (Hr1 : ready db1).
  { replace db1 with (CreateDongle now1 now2 db b1).1 by by rewrite H1.
    by apply CreateDongle_ready. }
  apply CreateDongle_taken; [done|].
  apply CreateDongle_success in H1 as (_ & _ & ->). simpl.
  rewrite <- Hp. apply list_elem_of_here.
Qed.

Lemma CreateDongle_unique_path_witness :
  CreateDongle 3 4 (CreateDongle 1 2 store0 (binding "A" "/dev/ttyUSB0" 0)).1
    (binding "B" "/dev/ttyUSB0" 0)
  = ((CreateDongle 1 2 store0 (binding "A" "/dev/ttyUSB0" 0)).1,
     Some ql.ErrDuplicate)
  ∧ kind_of ql.ErrDuplicate = Some ConstraintViolation.
Proof.
  apply (CreateDongle_unique_path 1 2 3 4 store0 _
           (binding "A" "/dev/ttyUSB0" 0) (binding "B" "/dev/ttyUSB0" 0)).
  - exact store0_ready.
  - reflexivity.
  - simpl. discriminate.
  - reflexivity.
Defined.

(** C5. On a store whose table can be read, [DongleExists] is true exactly
    when some row has the IMEI, the IMSI and the path of the argument; when
    the count query fails, it is false and the error goes to the log, not to
    the caller. *)
Theorem DongleExists_spec (db : ql.DB) (modem : Dongle) :
  (∀ l, ql.table db = Ok l →
     (DongleExists db modem = true ↔
      ∃ r, r ∈ l ∧ ql.imei r = IMEI modem ∧ ql.imsi r = IMSI modem
           ∧ ql.path r = Path modem))
  ∧ (∀ err, ql.select_count db (IMEI modem) (IMSI modem) (Path modem) = Err err →
       DongleExists db modem = false
       ∧ DongleExists_logged db modem = (false, [err])).
Proof.
  split.
  - intros l Hl. unfold DongleExists, DongleExists_logged, ql.select_count.
    rewrite Hl. simpl. rewrite Z.ltb_lt.
    set (P := λ r, ql.imei r = IMEI modem ∧ ql.imsi r = IMSI modem ∧ ql.path r = Path modem).
    split.
    + intros Hlen. destruct (filter P l) as [|r l'] eqn:Hf; [simpl in Hlen; lia|].
      assert (Hr : r ∈ filter P l) by (rewrite Hf; apply list_elem_of_here).
      apply list_elem_of_filter in Hr as [HP Hr]. exists r. by split.
    + intros (r & Hr & HP).
      assert (Hin : r ∈ filter P l) by (apply list_elem_of_filter; by split).
      destruct (filter P l); [by apply elem_of_nil in Hin|]. simpl. lia.
  - intros err He. unfold DongleExists, DongleExists_logged. by rewrite He.
Qed.

(** A second [Migration] on a store that has the index. *)
Lemma Migration_index_exists db :
  ql.closed db = false → ql.has_index db = true →
  Migration db = (db, Some ql.ErrIndexExists).
Proof.
  intros Hc Hi. unfold Migration, ql.transaction, ql.Begin. rewrite Hc. simpl.
  destruct (ql.has_table db); simpl; by rewrite ?Hi.
Qed.

(** C6. [Migration] on the fresh database succeeds and creates the table and
    the index; called again on the store it left, it fails, because the
    index [UQE_dongels] is created without IF NOT EXISTS. The failed call
    leaves the store as it was. *)
Theorem Migration_twice_fails :
  Migration sql_Open = (store0, None)
  ∧ ql.has_table store0 = true ∧ ql.has_index store0 = true
  ∧ Migration store0 = (store0, Some ql.ErrIndexExists).
Proof. repeat split. Qed.

(** [Migration] commits all of the schema or nothing: either it fails and
    the store is as it was, or it succeeds, the table and the index exist
    and the rows of a table that was there are kept. *)
Lemma Migration_atomic (db : ql.DB) :
  (∃ err, Migration db = (db, Some err))
  ∨ (∃ db', Migration db = (db', None)
       ∧ ql.has_table db' = true ∧ ql.has_index db' = true
       ∧ (ql.has_table db = true → ql.rows db' = ql.rows db)).
Proof.
  unfold Migration, ql.transaction, ql.Begin.
  destruct (ql.closed db); [left; by eexists|]. simpl.
  destruct (ql.has_table db) eqn:Ht; simpl.
  - destruct (ql.has_index db); simpl; [left; by eexists|]. rewrite Ht. simpl.
    case_bool_decide; [right|left]; by eexists.
  - destruct (ql.has_index db); simpl; [left; by eexists|].
    right. by eexists.
Qed.

(** C8. On an open store with the table, [RemoveDongle] succeeds and keeps
    exactly the rows of other devices, whatever their path; with an IMEI no
    row has, the store is unchanged; a second call in a row succeeds and
    changes nothing. *)
Theorem RemoveDongle_idempotent (db : ql.DB) (d : Dongle) :
  ql.closed db = false → ql.has_table db = true →
  ∃ db', RemoveDongle db d = (db', None)
    ∧ ql.rows db' = filter (λ r, ql.imei r ≠ IMEI d) (ql.rows db)
    ∧ (∀ r, r ∈ ql.rows db' ↔ r ∈ ql.rows db ∧ ql.imei r ≠ IMEI d)
    ∧ ((∀ r, r ∈ ql.rows db → ql.imei r ≠ IMEI d) → db' = db)
    ∧ RemoveDongle db' d = (db', None).
Proof.
  intros Hc Ht.
  exists (ql.set_rows db (filter (λ r, ql.imei r ≠ IMEI d) (ql.rows db))).
  assert (Hid : ∀ l : list ql.Row,
            (∀ r, r ∈ l → ql.imei r ≠ IMEI d) →
            filter (λ r, ql.imei r ≠ IMEI d) l = l).
  { induction l as [|r l IH]; intros Hall; [done|].
    rewrite filter_cons_True by (apply Hall, list_elem_of_here).
    f_equal. apply IH. intros r' Hr'. by apply Hall, list_elem_of_further. }
  split; [|split; [|split; [|split]]].
  - unfold RemoveDongle, ql.transaction, ql.Begin. rewrite Hc. simpl.
    by rewrite Ht.
  - done.
  - intros r. simpl. rewrite list_elem_of_filter. tauto.
  - intros Hall. destruct db as [c t i l]. unfold ql.set_rows. simpl in *.
    f_equal. by apply Hid.
  - unfold RemoveDongle, ql.transaction, ql.Begin. simpl. rewrite Hc. simpl.
    rewrite Ht. simpl. unfold ql.set_rows. simpl. do 2 f_equal.
    apply Hid. intros r Hr. by apply list_elem_of_filter in Hr as [? _].
Qed.

Lemma RemoveDongle_idempotent_witness :
  ∃ db', RemoveDongle store3 (binding "A" "" 0) = (db', None)
    ∧ ql.rows db' = filter (λ r, ql.imei r ≠ "A") (ql.rows store3)
    ∧ (∀ r, r ∈ ql.rows db' ↔ r ∈ ql.rows store3 ∧ ql.imei r ≠ "A")
    ∧ ((∀ r, r ∈ ql.rows store3 → ql.imei r ≠ "A") → db' = store3)
    ∧ RemoveDongle db' (binding "A" "" 0) = (db', None).
Proof.
  apply (RemoveDongle_idempotent store3 (binding "A" "" 0)); reflexivity.
Defined.

(** C10. [RemoveDongle] reads nothing of its argument but the IMEI: two
    arguments with the same IMEI give the same store and the same error. *)
Theorem RemoveDongle_only_IMEI (db : ql.DB) (d1 d2 : Dongle) :
  IMEI d1 = IMEI d2 → RemoveDongle db d1 = RemoveDongle db d2.
Proof. intros H. unfold RemoveDongle. by rewrite H. Qed.

Lemma RemoveDongle_only_IMEI_witness :
  RemoveDongle store3 (binding "A" "/dev/ttyUSB0" 0)
  = RemoveDongle store3
      {| IMEI := "A"; IMSI := "other"; Path := "/dev/ttyUSB7";
         IsSymlinked := true; TTY := 7; ATI := "other";
         Properties := Some ∅; CreatedOn := 5; UpdatedOn := 6 |}.
Proof.
  apply (RemoveDongle_only_IMEI store3 (binding "A" "/dev/ttyUSB0" 0)).
  reflexivity.
Defined.

(** C9. On an open store whose table is empty [GetDistinct] returns the
    empty list and no error; the sort is not consulted, so this holds for
    any function in its place. *)
Theorem GetDistinct_empty (sort_Sort : list Dongle → list Dongle) (db : ql.DB) :
  ql.closed db = false → ql.has_table db = true → ql.rows db = [] →
  GetAllDongles db = Ok [] ∧ GetDistinct sort_Sort db = Ok [].
Proof.
  intros Hc Ht Hr.
  assert (Ha : GetAllDongles db = Ok []).
  { unfold GetAllDongles, ql.table. by rewrite Hc, Ht, Hr. }
  split; [done|]. unfold GetDistinct. by rewrite Ha.
Qed.

Lemma GetDistinct_empty_witness :
  GetAllDongles store0 = Ok [] ∧ GetDistinct (λ _, []) store0 = Ok [].
Proof.
  apply (GetDistinct_empty (λ _, []) store0); reflexivity.
Defined.

(** ** [UpdateDongle] *)

(** C7, as stated, fails: [created_on] is assigned [$7], the [CreatedOn] of
    the argument. A binding inserted at time 5 and updated at time 9 with a
    [Dongle] whose [CreatedOn] is the zero time loses its creation time. *)
Lemma UpdateDongle_overwrites_CreatedOn :
  ¬ (∀ (now : Z) (db db' : ql.DB) (d : Dongle) (r r' : ql.Row),
       ready db → UpdateDongle now db d = (db', None) →
       r ∈ ql.rows db → ql.imei r = IMEI d → ql.path r = Path d →
       r' ∈ ql.rows db' → ql.path r' = Path d →
       Update_rewrites now d r r').
Proof.
  intros H.
  set (d := binding "A" "/dev/ttyUSB0" 0).
  set (db := (CreateDongle 5 5 store0 d).1).
  specialize (H 9 db (UpdateDongle 9 db d).1 d
    {| ql.imei := "A"; ql.imsi := IMSI d; ql.path := "/dev/ttyUSB0";
       ql.symlink := false; ql.tty := 0; ql.ati := ATI d;
       ql.properties := None; ql.created_on := 5; ql.updated_on := 5 |}
    {| ql.imei := "A"; ql.imsi := IMSI d; ql.path := "/dev/ttyUSB0";
       ql.symlink := false; ql.tty := 0; ql.ati := ATI d;
       ql.properties := None; ql.created_on := 0; ql.updated_on := 9 |}).
  assert (Hr : ready db) by (by repeat split).
  destruct H as (_ & _ & _ & _ & _ & _ & Hcreated);
    try done; try (vm_compute; apply list_elem_of_here).
Qed.

(** C7, amended. On an open store with the table [UpdateDongle] succeeds and
    goes through the rows in place: a row with the IMEI and the path of the
    argument gets the argument's IMSI, symlink flag, TTY and encoded
    properties, [updated_on] becomes the time of the call and [created_on]
    the [CreatedOn] of the argument; every other row is left as it was. *)
Theorem UpdateDongle_spec (now : Z) (db : ql.DB) (d : Dongle) :
  ql.closed db = false → ql.has_table db = true →
  ∃ db', UpdateDongle now db d = (db', None)
    ∧ length (ql.rows db') = length (ql.rows db)
    ∧ ∀ (i : nat) (r : ql.Row), ql.rows db !! i = Some r →
        ∃ r', ql.rows db' !! i = Some r'
          ∧ (ql.imei r = IMEI d ∧ ql.path r = Path d →
               ql.imei r' = IMEI d ∧ ql.path r' = Path d
               ∧ ql.imsi r' = IMSI d ∧ ql.symlink r' = IsSymlinked d
               ∧ ql.tty r' = TTY d
               ∧ ql.properties r' = marshal_properties d
               ∧ ql.updated_on r' = now
               ∧ ql.created_on r' = CreatedOn d)
          ∧ (¬ (ql.imei r = IMEI d ∧ ql.path r = Path d) → r' = r).
Proof.
  intros Hc Ht.
  eexists. split; [|split].
  - unfold UpdateDongle, ql.transaction, ql.Begin. rewrite Hc. simpl.
    rewrite Ht. simpl. reflexivity.
  - simpl. by rewrite length_fmap.
  - intros i r Hi. simpl. rewrite list_lookup_fmap, Hi. simpl.
    eexists. split; [reflexivity|]. unfold ql.update_row. split.
    + intros [-> ->]. by rewrite !bool_decide_eq_true_2.
    + intros Hn. destruct (bool_decide (ql.path r = Path d)) eqn:E1;
        destruct (bool_decide (ql.imei r = IMEI d)) eqn:E2; simpl; try done.
      apply bool_decide_eq_true in E1, E2. by destruct Hn.
Qed.

Lemma UpdateDongle_spec_witness :
  ∃ db', UpdateDongle 9 store3 (binding "A" "/dev/ttyUSB0" 0) = (db', None)
    ∧ length (ql.rows db') = length (ql.rows store3)
    ∧ ∀ (i : nat) (r : ql.Row), ql.rows store3 !! i = Some r →
        ∃ r', ql.rows db' !! i = Some r'
          ∧ (ql.imei r = "A" ∧ ql.path r = "/dev/ttyUSB0" →
               ql.imei r' = "A" ∧ ql.path r' = "/dev/ttyUSB0"
               ∧ ql.imsi r' = "640021234567890" ∧ ql.symlink r' = false
               ∧ ql.tty r' = 0
               ∧ ql.properties r' = None
               ∧ ql.updated_on r' = 9
               ∧ ql.created_on r' = 0)
          ∧ (¬ (ql.imei r = "A" ∧ ql.path r = "/dev/ttyUSB0") → r' = r).
Proof.
  apply (UpdateDongle_spec 9 store3 (binding "A" "/dev/ttyUSB0" 0));
    reflexivity.
Defined.

(** ** [GetSymlinkCandidate] *)

Lemma min_of_None (l : list Z) : ql.min_of l = None ↔ l = [].
Proof.
  destruct l as [|x l]; [done|]. simpl. by destruct (ql.min_of l).
Qed.

Lemma min_of_Some (l : list Z) (m : Z) :
  ql.min_of l = Some m → m ∈ l ∧ ∀ x, x ∈ l → m ≤ x.
Proof.
  revert m. induction l as [|y l IH]; intros m; [done|]. simpl.
  destruct (ql.min_of l) as [m'|] eqn:E.
  - intros [= <-]. destruct (IH m' eq_refl) as [Hin Hle]. split.
    + destruct (Z.min_spec y m') as [[_ ->]|[_ ->]];
        [apply list_elem_of_here | by apply list_elem_of_further].
    + intros x [->|Hx]%elem_of_cons; [lia|]. specialize (Hle x Hx). lia.
  - intros [= <-]. apply min_of_None in E as ->. split.
    + apply list_elem_of_here.
    + intros x [->|Hx]%elem_of_cons; [lia|]. by apply elem_of_nil in Hx.
Qed.

Lemma filter_none {A} (P : A → Prop) `{∀ x, Decision (P x)} (l : list A) :
  (∀ x, x ∈ l → ¬ P x) → filter P l = [].
Proof.
  intros Hall. destruct (filter P l) as [|x l'] eqn:E; [done|].
  assert (Hx : x ∈ filter P l) by (rewrite E; apply list_elem_of_here).
  apply list_elem_of_filter in Hx as [HP Hx]. by destruct (Hall x Hx).
Qed.

Lemma filter_some {A} (P : A → Prop) `{∀ x, Decision (P x)} (l : list A) x :
  x ∈ l → P x → ∃ y l', filter P l = y :: l'.
Proof.
  intros Hx HP. assert (Hin : x ∈ filter P l) by (by apply list_elem_of_filter).
  destruct (filter P l) as [|y l']; [by apply elem_of_nil in Hin|]. eauto.
Qed.

(** [GetDongle] on a readable table: [sql.ErrNoRows] when no row has the
    path, the scan of a row with that path otherwise. *)
Lemma GetDongle_rows db p :
  ql.closed db = false → ql.has_table db = true →
  ((∀ r, r ∈ ql.rows db → ql.path r ≠ p) → GetDongle db p = Err ql.ErrNoRows)
  ∧ ((∃ r, r ∈ ql.rows db ∧ ql.path r = p) →
     ∃ r, r ∈ ql.rows db ∧ ql.path r = p ∧ GetDongle db p = scan r).
Proof.
  intros Hc Ht. unfold GetDongle, scan_one, ql.select_by_path, ql.table.
  rewrite Hc, Ht. simpl. split.
  - intros Hall. destruct (filter _ _) as [|r l] eqn:E; [done|].
    assert (Hr : r ∈ filter (λ r, ql.path r = p) (ql.rows db))
      by (rewrite E; apply list_elem_of_here).
    apply list_elem_of_filter in Hr as [Hp Hr]. by destruct (Hall r Hr).
  - intros (r & Hr & Hp).
    assert (Hin : r ∈ filter (λ r, ql.path r = p) (ql.rows db))
      by (by apply list_elem_of_filter).
    destruct (filter _ _) as [|r0 l] eqn:E; [by apply elem_of_nil in Hin|].
    assert (Hr0 : r0 ∈ filter (λ r, ql.path r = p) (ql.rows db))
      by (rewrite E; apply list_elem_of_here).
    apply list_elem_of_filter in Hr0 as [Hp0 Hr0]. by exists r0.
Qed.

(** C2, as stated, fails: the prefix is the constant of the format string,
    not a parameter. On a host that names its ports /dev/ttyACM followed by
    the index, device A has one binding, on port 0; the specification's
    function returns it, the code looks for /dev/ttyUSB0 and finds no row. *)
Lemma GetSymlinkCandidate_prefix_fixed :
  ¬ (∀ (prefix : string) (db : ql.DB) (imei : string), ready db →
       same_outcome (GetSymlinkCandidate db imei)
                    (GetCanonicalPort_spec prefix db imei)).
Proof.
  intros H. specialize (H "/dev/ttyACM" storeACM "A").
  assert (Hr : ready storeACM) by (by repeat split).
  specialize (H Hr). vm_compute in H. exact H.
Qed.

(** C2, amended. On an open store with the table, [GetSymlinkCandidate]
    does what the specification's function does for the prefix /dev/ttyUSB:
    with no row of the device it fails, and the error is a NotFound;
    otherwise it takes the least TTY among the rows of the device and
    returns what [GetDongle] returns for /dev/ttyUSB followed by that number
    in decimal, which is [sql.ErrNoRows], a NotFound, when no row has that
    path and the scan of a row with that path otherwise. *)
Theorem GetSymlinkCandidate_spec (db : ql.DB) (imei : string) :
  ql.closed db = false → ql.has_table db = true →
  same_outcome (GetSymlinkCandidate db imei)
               (GetCanonicalPort_spec "/dev/ttyUSB" db imei)
  ∧ ((∀ r, r ∈ ql.rows db → ql.imei r ≠ imei) →
       GetSymlinkCandidate db imei = Err ql.ErrScanNull
       ∧ kind_of ql.ErrScanNull = Some NotFound)
  ∧ ((∃ r, r ∈ ql.rows db ∧ ql.imei r = imei) →
       ∃ r0, r0 ∈ ql.rows db ∧ ql.imei r0 = imei
         ∧ (∀ r, r ∈ ql.rows db → ql.imei r = imei → ql.tty r0 ≤ ql.tty r)
         ∧ GetSymlinkCandidate db imei
           = GetDongle db ("/dev/ttyUSB" +:+ pretty (ql.tty r0))
         ∧ ((∀ r, r ∈ ql.rows db →
               ql.path r ≠ "/dev/ttyUSB" +:+ pretty (ql.tty r0)) →
              GetSymlinkCandidate db imei = Err ql.ErrNoRows
              ∧ kind_of ql.ErrNoRows = Some NotFound)
         ∧ ((∃ r, r ∈ ql.rows db
                 ∧ ql.path r = "/dev/ttyUSB" +:+ pretty (ql.tty r0)) →
              ∃ r, r ∈ ql.rows db
                ∧ ql.path r = "/dev/ttyUSB" +:+ pretty (ql.tty r0)
                ∧ GetSymlinkCandidate db imei = scan r)).
Proof.
  intros Hc Ht.
  assert (Hcode : GetSymlinkCandidate db imei =
    match ql.min_of (ql.tty <$> filter (λ r, ql.imei r = imei) (ql.rows db)) with
    | None => Err ql.ErrScanNull
    | Some tty => GetDongle db ("/dev/ttyUSB" +:+ pretty tty)
    end).
  { unfold GetSymlinkCandidate, ql.select_min_tty, ql.table.
    by rewrite Hc, Ht. }
  split; [|split].
  - rewrite Hcode. unfold GetCanonicalPort_spec.
    destruct (ql.min_of _); [|done].
    unfold same_outcome. by destruct (GetDongle _ _).
  - intros Hall. split; [|done]. rewrite Hcode.
    by rewrite (filter_none (λ r, ql.imei r = imei)).
  - intros (r & Hr & Hi).
    destruct (ql.min_of (ql.tty <$> filter (λ r, ql.imei r = imei) (ql.rows db)))
      as [m|] eqn:Hm.
    2:{ apply min_of_None, fmap_nil_inv in Hm.
        destruct (filter_some (λ r, ql.imei r = imei) (ql.rows db) r Hr Hi)
          as (y & l' & Hy). congruence. }
    apply min_of_Some in Hm as [Hin Hle].
    apply list_elem_of_fmap in Hin as (r0 & -> & Hr0).
    apply list_elem_of_filter in Hr0 as [Hi0 Hr0].
    exists r0. split; [done|]. split; [done|]. split.
    { intros r' Hr' Hi'. apply Hle, list_elem_of_fmap. exists r'.
      split; [done|]. by apply list_elem_of_filter. }
    split; [done|].
    destruct (GetDongle_rows db ("/dev/ttyUSB" +:+ pretty (ql.tty r0)) Hc Ht)
      as [Hnone Hsome].
    split.
    + intros Hall. split; [|done]. rewrite Hcode. by apply Hnone.
    + intros Hex. destruct (Hsome Hex) as (r1 & Hr1 & Hp1 & Hg).
      exists r1. split; [done|]. split; [done|]. by rewrite Hcode.
Qed.

Lemma GetSymlinkCandidate_spec_witness :
  same_outcome (GetSymlinkCandidate store3 "A")
               (GetCanonicalPort_spec "/dev/ttyUSB" store3 "A")
  ∧ ((∀ r, r ∈ ql.rows store3 → ql.imei r ≠ "A") →
       GetSymlinkCandidate store3 "A" = Err ql.ErrScanNull
       ∧ kind_of ql.ErrScanNull = Some NotFound)
  ∧ ((∃ r, r ∈ ql.rows store3 ∧ ql.imei r = "A") →
       ∃ r0, r0 ∈ ql.rows store3 ∧ ql.imei r0 = "A"
         ∧ (∀ r, r ∈ ql.rows store3 → ql.imei r = "A" → ql.tty r0 ≤ ql.tty r)
         ∧ GetSymlinkCandidate store3 "A"
           = GetDongle store3 ("/dev/ttyUSB" +:+ pretty (ql.tty r0))
         ∧ ((∀ r, r ∈ ql.rows store3 →
               ql.path r ≠ "/dev/ttyUSB" +:+ pretty (ql.tty r0)) →
              GetSymlinkCandidate store3 "A" = Err ql.ErrNoRows
              ∧ kind_of ql.ErrNoRows = Some NotFound)
         ∧ ((∃ r, r ∈ ql.rows store3
                 ∧ ql.path r = "/dev/ttyUSB" +:+ pretty (ql.tty r0)) →
              ∃ r, r ∈ ql.rows store3
                ∧ ql.path r = "/dev/ttyUSB" +:+ pretty (ql.tty r0)
                ∧ GetSymlinkCandidate store3 "A" = scan r)).
Proof.
  apply (GetSymlinkCandidate_spec store3 "A"); reflexivity.
Defined.

(** ** [GetDistinct] *)

Lemma group_step_lookup (s : gmap string (list Dongle)) (d : Dongle) (k : string) :
  group_step s d !! k = if decide (k = IMEI d) then Some [d] else s !! k.
Proof.
  unfold group_step. case_decide as Hk.
  - subst k. apply lookup_insert_eq.
  - rewrite lookup_insert_ne by done.
    destruct (s !! IMEI d); [|done]. by rewrite lookup_insert_ne.
Qed.

(** After the first loop the group of an IMEI holds one binding: the last
    one of that IMEI in the order of [GetAllDongles]. *)
Lemma groups_lookup (a : list Dongle) (k : string) :
  foldl group_step ∅ a !! k
  = (λ d, [d]) <$> last (filter (λ d, IMEI d = k) a).
Proof.
  induction a as [|d a IH] using rev_ind; [done|].
  rewrite foldl_app. simpl. rewrite group_step_lookup, filter_app.
  case_decide as Hk.
  - subst k. rewrite filter_cons_True, filter_nil by done.
    by rewrite last_snoc.
  - rewrite filter_cons_False, filter_nil, app_nil_r by done. apply IH.
Qed.

Lemma sort_singleton (sort_Sort : list Dongle → list Dongle) (d : Dongle) :
  (∀ l, sort_Sort l ≡ₚ l) → sort_Sort [d] = [d].
Proof. intros H. apply Permutation_singleton_r, H. Qed.

(** The representatives [GetDistinct] picks. *)
Lemma GetDistinct_representatives (sort_Sort : list Dongle → list Dongle)
    (db : ql.DB) (a : list Dongle) :
  (∀ l, sort_Sort l ≡ₚ l) →
  GetAllDongles db = Ok a →
  ∃ out, GetDistinct sort_Sort db = Ok out
    ∧ NoDup (IMEI <$> out)
    ∧ ∀ d, d ∈ out ↔ last (filter (λ x, IMEI x = IMEI d) a) = Some d.
Proof.
  intros Hsort Ha. unfold GetDistinct. rewrite Ha. simpl.
  destruct a as [|d0 a0]; simpl.
  { exists []. split; [done|]. split; [constructor|].
    intros d. split; [by intros ?%elem_of_nil|done]. }
  change (foldl group_step (group_step ∅ d0) a0)
    with (foldl group_step ∅ (d0 :: a0)).
  set (a := d0 :: a0). set (s := sort_Sort <$> foldl group_step ∅ a).
  assert (Hs : ∀ k, s !! k = (λ d, [d]) <$> last (filter (λ d, IMEI d = k) a)).
  { intros k. unfold s. rewrite lookup_fmap, groups_lookup.
    destruct (last _); simpl; [|done]. by rewrite sort_singleton. }
  assert (Hkv : ∀ kv, kv ∈ map_to_list s →
            ∃ d, kv.2 = [d] ∧ IMEI d = kv.1
                 ∧ last (filter (λ x, IMEI x = IMEI d) a) = Some d).
  { intros [k v] Hin. apply elem_of_map_to_list in Hin. rewrite Hs in Hin.
    destruct (last _) as [d|] eqn:Hl; [|done]. simpl in Hin.
    injection Hin as <-. exists d. simpl.
    assert (Hd : IMEI d = k).
    { apply last_Some_elem_of, list_elem_of_filter in Hl. by destruct Hl. }
    rewrite Hd. done. }
  destruct (mapM_is_Some_2 (λ kv : string * list Dongle, head kv.2) (map_to_list s))
    as [out Hout].
  { apply Forall_forall. intros kv Hin. destruct (Hkv kv Hin) as (d & Hv & _).
    simpl. rewrite Hv. by eexists. }
  rewrite Hout. exists out. split; [done|].
  apply mapM_Some_1 in Hout.
  assert (Hfst : IMEI <$> out = (map_to_list s).*1).
  { symmetry. apply list_eq_Forall2, Forall2_fmap.
    apply Forall2_same_length_lookup. split; [by eapply Forall2_length|].
    intros i kv d Hi Hd.
    pose proof (Forall2_lookup_lr _ _ _ _ _ _ Hout Hi Hd) as Hh. simpl in Hh.
    destruct (Hkv kv) as (d' & Hv & Hk & _).
    { apply list_elem_of_lookup. eauto. }
    rewrite Hv in Hh. simpl in Hh. by injection Hh as <-. }
  split.
  { rewrite Hfst. apply NoDup_fst_map_to_list. }
  intros d. split.
  - intros [i Hi]%list_elem_of_lookup.
    destruct (Forall2_lookup_r _ _ _ _ _ Hout Hi) as (kv & Hkvi & Hh).
    destruct (Hkv kv) as (d' & Hv & _ & Hl).
    { apply list_elem_of_lookup. eauto. }
    rewrite Hv in Hh. simpl in Hh. by injection Hh as <-.
  - intros Hl.
    assert (Hin : (IMEI d, [d]) ∈ map_to_list s).
    { apply elem_of_map_to_list. rewrite Hs, Hl. done. }
    apply list_elem_of_lookup in Hin as [i Hi].
    destruct (Forall2_lookup_l _ _ _ _ _ Hout Hi) as (d' & Hd' & Hh).
    simpl in Hh. injection Hh as <-. apply list_elem_of_lookup. eauto.
Qed.

(** What [GetDistinct] returns, for any sort that permutes its argument:
    one binding for each IMEI of the table, and for each IMEI the binding
    that [GetAllDongles] lists last. *)
Lemma GetDistinct_last (sort_Sort : list Dongle → list Dongle)
    (db : ql.DB) (a : list Dongle) :
  (∀ l, sort_Sort l ≡ₚ l) →
  GetAllDongles db = Ok a →
  ∃ out, GetDistinct sort_Sort db = Ok out
    ∧ NoDup (IMEI <$> out)
    ∧ ∀ d, d ∈ out ↔ last (filter (λ x, IMEI x = IMEI d) a) = Some d.
Proof. apply GetDistinct_representatives. Qed.

(** C1. Device A was inserted on ports 1, 0 and 2. [GetDistinct] returns one
    binding for it, but not the one of port 0: with the rows in the order the
    store keeps them it is the binding of port 1, and with the rows in the
    opposite order it is the binding of port 2. The group of an IMEI is
    overwritten in every round of the first loop, so the sort sees one
    element and the last row read stays. *)
Theorem GetDistinct_not_minimum :
  (∃ d d0 a, GetDistinct insertion_sort store3 = Ok [d] ∧ TTY d = 1
     ∧ GetAllDongles store3 = Ok a ∧ d0 ∈ a
     ∧ IMEI d0 = IMEI d ∧ TTY d0 = 0)
  ∧ (∃ d d0 a,
       let db := ql.set_rows store3 (reverse (ql.rows store3)) in
       GetDistinct insertion_sort db = Ok [d] ∧ TTY d = 2
       ∧ GetAllDongles db = Ok a ∧ d0 ∈ a
       ∧ IMEI d0 = IMEI d ∧ TTY d0 = 0).
Proof.
  split.
  - exists {| IMEI := "A"; IMSI := "640021234567890"; Path := "/dev/ttyUSB1";
              IsSymlinked := false; TTY := 1; ATI := "Manufacturer: huawei";
              Properties := None; CreatedOn := 1; UpdatedOn := 1 |}.
    exists {| IMEI := "A"; IMSI := "640021234567890"; Path := "/dev/ttyUSB0";
              IsSymlinked := false; TTY := 0; ATI := "Manufacturer: huawei";
              Properties := None; CreatedOn := 2; UpdatedOn := 2 |}.
    eexists. split; [by vm_compute|]. split; [done|].
    split; [by vm_compute|]. split; [|done].
    apply list_elem_of_further, list_elem_of_here.
  - exists {| IMEI := "A"; IMSI := "640021234567890"; Path := "/dev/ttyUSB2";
              IsSymlinked := false; TTY := 2; ATI := "Manufacturer: huawei";
              Properties := None; CreatedOn := 3; UpdatedOn := 3 |}.
    exists {| IMEI := "A"; IMSI := "640021234567890"; Path := "/dev/ttyUSB0";
              IsSymlinked := false; TTY := 0; ATI := "Manufacturer: huawei";
              Properties := None; CreatedOn := 2; UpdatedOn := 2 |}.
    eexists. split; [by vm_compute|]. split; [done|].
    split; [by vm_compute|]. split; [|done].
    apply list_elem_of_further, list_elem_of_here.
Qed.

(** ** [insertion_sort] does what [sort.Sort] promises *)

Lemma insert_sorted_perm (d : Dongle) (l : list Dongle) :
  insert_sorted d l ≡ₚ d :: l.
Proof.
  induction l as [|x l IH]; [done|]. simpl.
  destruct (Less x d); [|done]. rewrite IH. apply Permutation_swap.
Qed.

Lemma insertion_sort_perm (l : list Dongle) : insertion_sort l ≡ₚ l.
Proof.
  induction l as [|x l IH]; [done|]. unfold insertion_sort in *. simpl.
  by rewrite insert_sorted_perm, IH.
Qed.

Lemma insert_sorted_sorted (d : Dongle) (l : list Dongle) :
  Sorted (λ x y, TTY x ≤ TTY y) l →
  Sorted (λ x y, TTY x ≤ TTY y) (insert_sorted d l).
Proof.
  induction 1 as [|x l Hs IH Hhd]; simpl.
  { by repeat constructor. }
  unfold Less. destruct (Z.ltb_spec (TTY x) (TTY d)).
  - constructor; [done|]. destruct Hhd as [|y l Hy]; simpl.
    + constructor. lia.
    + unfold Less. destruct (Z.ltb_spec (TTY y) (TTY d)); constructor; lia.
  - constructor; [by constructor|]. constructor. lia.
Qed.

Lemma insertion_sort_sorted (l : list Dongle) :
  Sorted (λ x y, TTY x ≤ TTY y) (insertion_sort l).
Proof.
  induction l as [|x l IH]; [constructor|]. by apply insert_sorted_sorted.
Qed.

Lemma GetDistinct_last_witness :
  ∃ out, GetDistinct insertion_sort storeAB = Ok out
    ∧ NoDup (IMEI <$> out)
    ∧ ∀ d, d ∈ out ↔
        last (filter (λ x, IMEI x = IMEI d)
          [ {| IMEI := "B"; IMSI := "640021234567890"; Path := "/dev/ttyUSB1";
               IsSymlinked := false; TTY := 1; ATI := "Manufacturer: huawei";
               Properties := None; CreatedOn := 3; UpdatedOn := 3 |};
            {| IMEI := "A"; IMSI := "640021234567890"; Path := "/dev/ttyUSB0";
               IsSymlinked := false; TTY := 0; ATI := "Manufacturer: huawei";
               Properties := None; CreatedOn := 2; UpdatedOn := 2 |};
            {| IMEI := "A"; IMSI := "640021234567890"; Path := "/dev/ttyUSB2";
               IsSymlinked := false; TTY := 2; ATI := "Manufacturer: huawei";
               Properties := None; CreatedOn := 1; UpdatedOn := 1 |} ])
        = Some d.
Proof.
  apply (GetDistinct_last insertion_sort storeAB).
  - exact insertion_sort_perm.
  - reflexivity.
Defined.

(** ** Bytes and strings *)

#[local] Arguments String.append : simpl nomatch.

Lemma byte_val_range (c : ascii) : 0 ≤ byte_val c < 256.
Proof.
  unfold byte_val. pose proof (N_ascii_bounded c) as H. lia.
Qed.

Lemma byte_of_val (c : ascii) : byte_of (byte_val c) = c.
Proof. unfold byte_of, byte_val. by rewrite N2Z.id, ascii_N_embedding. Qed.

Lemma forallb_bytes (f : Z → bool) :
  forallb f (seqZ 0 256) = true → ∀ c : ascii, f (byte_val c) = true.
Proof.
  intros H c. rewrite forallb_forall in H. apply H, list_elem_of_In.
  apply elem_of_seqZ. pose proof (byte_val_range c). lia.
Qed.

Lemma string_app_assoc (s1 s2 s3 : string) :
  (s1 ++ s2) ++ s3 = (s1 ++ (s2 ++ s3))%string.
Proof. induction s1 as [|c s1 IH]; simpl; [done|]. by rewrite IH. Qed.

Lemma string_length_app (s1 s2 : string) :
  String.length (s1 ++ s2) = (String.length s1 + String.length s2)%nat.
Proof. induction s1 as [|c s1 IH]; simpl; [done|]. by rewrite IH. Qed.

Lemma string_drop_app (s1 s2 : string) :
  string_drop (String.length s1) (s1 ++ s2) = s2.
Proof. induction s1 as [|c s1 IH]; simpl; [by destruct s2|done]. Qed.

Lemma string_take_app (s1 s2 : string) :
  string_take (String.length s1) (s1 ++ s2) = s1.
Proof. induction s1 as [|c s1 IH]; simpl; [done|]. by rewrite IH. Qed.

(** ** Bit operations on the ranges UTF-8 uses, as arithmetic *)

Lemma land_low_zero (a b n : Z) :
  0 ≤ n → a mod 2 ^ n = 0 → 0 ≤ b < 2 ^ n → Z.land a b = 0.
Proof.
  intros Hn Ha Hb. apply Z.bits_inj'. intros m Hm.
  rewrite Z.land_spec, Z.bits_0.
  destruct (Z.lt_ge_cases m n) as [Hlt|Hge].
  - replace a with (a / 2 ^ n * 2 ^ n)
      by (pose proof (Z.div_mod a (2 ^ n)); lia).
    by rewrite Z.mul_pow2_bits_low.
  - apply andb_false_intro2.
    destruct (Z.eq_dec b 0) as [->|Hb0]; [apply Z.bits_0|].
    apply Z.bits_above_log2; [lia|].
    apply Z.log2_lt_pow2; [lia|].
    eapply Z.lt_le_trans; [apply Hb|]. apply Z.pow_le_mono_r; lia.
Qed.

Lemma lor_add (n a b : Z) :
  0 ≤ n → a mod 2 ^ n = 0 → 0 ≤ b < 2 ^ n → Z.lor a b = a + b.
Proof.
  intros Hn Ha Hb. pose proof (land_low_zero a b n Hn Ha Hb) as H0.
  by rewrite <- Z.lxor_lor, <- Z.add_nocarry_lxor.
Qed.

Lemma land_mod (n a : Z) : 0 ≤ n → Z.land a (2 ^ n - 1) = a mod 2 ^ n.
Proof.
  intros Hn. rewrite <- Z.land_ones by done. f_equal.
  rewrite Z.ones_equiv. lia.
Qed.

Lemma land_7 (a : Z) : Z.land a utf8.mask4 = a mod 8.
Proof. by apply (land_mod 3 a). Qed.

Lemma land_15 (a : Z) : Z.land a utf8.mask3 = a mod 16.
Proof. by apply (land_mod 4 a). Qed.

Lemma land_31 (a : Z) : Z.land a utf8.mask2 = a mod 32.
Proof. by apply (land_mod 5 a). Qed.

Lemma land_63 (a : Z) : Z.land a utf8.maskx = a mod 64.
Proof. by apply (land_mod 6 a). Qed.

Lemma shiftl_6 (a : Z) : Z.shiftl a 6 = a * 64.
Proof. by rewrite Z.shiftl_mul_pow2. Qed.

Lemma shiftl_12 (a : Z) : Z.shiftl a 12 = a * 4096.
Proof. by rewrite Z.shiftl_mul_pow2. Qed.

Lemma shiftl_18 (a : Z) : Z.shiftl a 18 = a * 262144.
Proof. by rewrite Z.shiftl_mul_pow2. Qed.

Lemma shiftr_6 (a : Z) : Z.shiftr a 6 = a / 64.
Proof. by rewrite Z.shiftr_div_pow2. Qed.

Lemma shiftr_12 (a : Z) : Z.shiftr a 12 = a / 4096.
Proof. by rewrite Z.shiftr_div_pow2. Qed.

Lemma shiftr_18 (a : Z) : Z.shiftr a 18 = a / 262144.
Proof. by rewrite Z.shiftr_div_pow2. Qed.

Ltac div_mod_lia := Z.div_mod_to_equations; lia.

(** [Z.lor a b] is [a + b] when [a] is a multiple of [2 ^ n] and [b] is
    below it. *)
Ltac lor_to_add n a :=
  rewrite !(lor_add n a) by
    (first [lia | let p := eval compute in (2 ^ n) in
                  change (2 ^ n) with p; div_mod_lia]).

Ltac bits_to_arith :=
  rewrite ?land_7, ?land_15, ?land_31, ?land_63,
          ?shiftl_6, ?shiftl_12, ?shiftl_18, ?shiftr_6, ?shiftr_12, ?shiftr_18.

(** The rune of a two-byte sequence is encoded as the same two bytes. *)
Lemma EncodeRune_2 (b0 b1 : Z) :
  0xC2 ≤ b0 ≤ 0xDF → 0x80 ≤ b1 ≤ 0xBF →
  utf8.EncodeRune
    (Z.lor (Z.shiftl (Z.land b0 utf8.mask2) 6) (Z.land b1 utf8.maskx))
  = String (byte_of b0) (String (byte_of b1) EmptyString).
Proof.
  intros H0 H1. bits_to_arith. lor_to_add 6 (b0 mod 32 * 64).
  set (r := b0 mod 32 * 64 + b1 mod 64).
  assert (Hr : r = (b0 - 0xC0) * 64 + (b1 - 0x80)) by (unfold r; div_mod_lia).
  unfold utf8.EncodeRune.
  replace ((0 <=? r) && (r <=? 0x7F)) with false
    by (symmetry; apply andb_false_iff; right; lia).
  replace ((0 <=? r) && (r <=? 0x7FF)) with true
    by (symmetry; apply andb_true_iff; lia).
  bits_to_arith. lor_to_add 5 0xC0. lor_to_add 6 0x80.
  do 2 f_equal; f_equal; div_mod_lia.
Qed.

(** The same for three bytes; after E0 the second byte starts at A0, after
    ED (the surrogates) it ends at 9F. *)
Lemma EncodeRune_3 (b0 b1 b2 : Z) :
  0xE0 ≤ b0 ≤ 0xEF → 0x80 ≤ b1 ≤ 0xBF → 0x80 ≤ b2 ≤ 0xBF →
  (b0 = 0xE0 → 0xA0 ≤ b1) → (b0 = 0xED → b1 ≤ 0x9F) →
  utf8.EncodeRune
    (Z.lor (Z.lor (Z.shiftl (Z.land b0 utf8.mask3) 12)
                  (Z.shiftl (Z.land b1 utf8.maskx) 6))
           (Z.land b2 utf8.maskx))
  = String (byte_of b0) (String (byte_of b1) (String (byte_of b2) EmptyString)).
Proof.
  intros H0 H1 H2 HE0 HED. bits_to_arith.
  lor_to_add 12 (b0 mod 16 * 4096).
  lor_to_add 6 (b0 mod 16 * 4096 + b1 mod 64 * 64).
  set (r := b0 mod 16 * 4096 + b1 mod 64 * 64 + b2 mod 64).
  assert (Hr : r = (b0 - 0xE0) * 4096 + (b1 - 0x80) * 64 + (b2 - 0x80))
    by (unfold r; div_mod_lia).
  unfold utf8.EncodeRune, utf8.MaxRune, utf8.surrogateMin, utf8.surrogateMax.
  replace ((0 <=? r) && (r <=? 0x7F)) with false
    by (symmetry; apply andb_false_iff; right; lia).
  replace ((0 <=? r) && (r <=? 0x7FF)) with false
    by (symmetry; apply andb_false_iff; right; lia).
  replace ((r <? 0) || (0x10FFFF <? r) || (0xD800 <=? r) && (r <=? 0xDFFF))
    with false.
  2:{ symmetry. apply orb_false_iff. split; [apply orb_false_iff; lia|].
      apply andb_false_iff.
      destruct (Z.eq_dec b0 0xED) as [E|E]; [specialize (HED E)|]; lia. }
  replace (r <=? 0xFFFF) with true by (symmetry; apply Z.leb_le; lia).
  bits_to_arith. lor_to_add 4 0xE0. lor_to_add 6 0x80.
  do 3 f_equal; f_equal; div_mod_lia.
Qed.

(** The same for four bytes; after F0 the second byte starts at 90, after
    F4 (the end of Unicode) it ends at 8F. *)
Lemma EncodeRune_4 (b0 b1 b2 b3 : Z) :
  0xF0 ≤ b0 ≤ 0xF4 → 0x80 ≤ b1 ≤ 0xBF → 0x80 ≤ b2 ≤ 0xBF → 0x80 ≤ b3 ≤ 0xBF →
  (b0 = 0xF0 → 0x90 ≤ b1) → (b0 = 0xF4 → b1 ≤ 0x8F) →
  utf8.EncodeRune
    (Z.lor (Z.lor (Z.lor (Z.shiftl (Z.land b0 utf8.mask4) 18)
                         (Z.shiftl (Z.land b1 utf8.maskx) 12))
                  (Z.shiftl (Z.land b2 utf8.maskx) 6))
           (Z.land b3 utf8.maskx))
  = String (byte_of b0) (String (byte_of b1)
      (String (byte_of b2) (String (byte_of b3) EmptyString))).
Proof.
  intros H0 H1 H2 H3 HF0 HF4. bits_to_arith.
  lor_to_add 18 (b0 mod 8 * 262144).
  lor_to_add 12 (b0 mod 8 * 262144 + b1 mod 64 * 4096).
  lor_to_add 6 (b0 mod 8 * 262144 + b1 mod 64 * 4096 + b2 mod 64 * 64).
  set (r := b0 mod 8 * 262144 + b1 mod 64 * 4096 + b2 mod 64 * 64 + b3 mod 64).
  assert (Hr : r = (b0 - 0xF0) * 262144 + (b1 - 0x80) * 4096
                   + (b2 - 0x80) * 64 + (b3 - 0x80))
    by (unfold r; div_mod_lia).
  unfold utf8.EncodeRune, utf8.MaxRune, utf8.surrogateMin, utf8.surrogateMax.
  replace ((0 <=? r) && (r <=? 0x7F)) with false
    by (symmetry; apply andb_false_iff; right; lia).
  replace ((0 <=? r) && (r <=? 0x7FF)) with false
    by (symmetry; apply andb_false_iff; right; lia).
  replace ((r <? 0) || (0x10FFFF <? r) || (0xD800 <=? r) && (r <=? 0xDFFF))
    with false.
  2:{ symmetry. apply orb_false_iff. split; [apply orb_false_iff; split|].
      - lia.
      - destruct (Z.eq_dec b0 0xF4) as [E|E]; [specialize (HF4 E)|]; lia.
      - apply andb_false_iff. right.
        destruct (Z.eq_dec b0 0xF0) as [E|E]; [specialize (HF0 E)|]; lia. }
  replace (r <=? 0xFFFF) with false.
  2:{ symmetry. apply Z.leb_gt.
      destruct (Z.eq_dec b0 0xF0) as [E|E]; [specialize (HF0 E)|]; lia. }
  bits_to_arith. lor_to_add 3 0xF0. lor_to_add 6 0x80.
  do 4 f_equal; f_equal; div_mod_lia.
Qed.

(** ** [DecodeRuneInString], case by case *)

Lemma first_cases (b0 : Z) :
  0x80 ≤ b0 < 256 →
  ((b0 < 0xC2 ∨ 0xF4 < b0) ∧ utf8.first b0 = utf8.xx)
  ∨ (0xC2 ≤ b0 ≤ 0xDF ∧ utf8.first b0 = utf8.s1)
  ∨ (b0 = 0xE0 ∧ utf8.first b0 = utf8.s2)
  ∨ ((0xE1 ≤ b0 ≤ 0xEC ∨ 0xEE ≤ b0 ≤ 0xEF) ∧ utf8.first b0 = utf8.s3)
  ∨ (b0 = 0xED ∧ utf8.first b0 = utf8.s4)
  ∨ (b0 = 0xF0 ∧ utf8.first b0 = utf8.s5)
  ∨ (0xF1 ≤ b0 ≤ 0xF3 ∧ utf8.first b0 = utf8.s6)
  ∨ (b0 = 0xF4 ∧ utf8.first b0 = utf8.s7).
Proof.
  intros H. unfold utf8.first.
  repeat match goal with
  | |- context [if ?a <? ?b then _ else _] => destruct (Z.ltb_spec a b)
  | |- context [if ?a =? ?b then _ else _] => destruct (Z.eqb_spec a b)
  end; try lia; intuition lia.
Qed.

Lemma DecodeRune_ascii (c : ascii) (t : string) :
  byte_val c < 0x80 →
  utf8.DecodeRuneInString (String c t) = (byte_val c, 1%nat).
Proof.
  intros H. unfold utf8.DecodeRuneInString, utf8.first.
  destruct (Z.ltb_spec (byte_val c) 0x80); [done|lia].
Qed.

(** The tests of the decoder, decided from the ranges of the bytes. *)
Ltac decide_tests :=
  repeat match goal with
  | |- context [Z.land ?c 7] =>
      let v := eval compute in (Z.land c 7) in change (Z.land c 7) with v
  end;
  repeat match goal with
  | |- context [?a <? ?b] =>
      first [ rewrite (proj2 (Z.ltb_lt a b)) by lia
            | rewrite (proj2 (Z.ltb_ge a b)) by lia ]
  end; simpl.

Ltac split_first c0 :=
  let Hf := fresh "Hf" in
  let R := fresh "R" in
  let Hc := fresh "Hc" in
  assert (Hc : 0x80 ≤ byte_val c0 < 256)
    by (pose proof (byte_val_range c0); lia);
  destruct (first_cases (byte_val c0) Hc)
    as [[R Hf]|[[R Hf]|[[R Hf]|[[R Hf]|[[R Hf]|[[R Hf]|[[R Hf]|[R Hf]]]]]]]];
  rewrite Hf; simpl.

Lemma DecodeRune_2 (c0 c1 : ascii) (t : string) :
  0xC2 ≤ byte_val c0 ≤ 0xDF → 0x80 ≤ byte_val c1 ≤ 0xBF →
  utf8.DecodeRuneInString (String c0 (String c1 t))
  = (Z.lor (Z.shiftl (Z.land (byte_val c0) utf8.mask2) 6)
           (Z.land (byte_val c1) utf8.maskx), 2%nat).
Proof.
  intros H0 H1. unfold utf8.DecodeRuneInString.
  split_first c0; try lia.
  unfold utf8.locb, utf8.hicb. decide_tests. done.
Qed.

Lemma DecodeRune_3 (c0 c1 c2 : ascii) (t : string) :
  0xE0 ≤ byte_val c0 ≤ 0xEF →
  0x80 ≤ byte_val c1 ≤ 0xBF → 0x80 ≤ byte_val c2 ≤ 0xBF →
  (byte_val c0 = 0xE0 → 0xA0 ≤ byte_val c1) →
  (byte_val c0 = 0xED → byte_val c1 ≤ 0x9F) →
  utf8.DecodeRuneInString (String c0 (String c1 (String c2 t)))
  = (Z.lor (Z.lor (Z.shiftl (Z.land (byte_val c0) utf8.mask3) 12)
                  (Z.shiftl (Z.land (byte_val c1) utf8.maskx) 6))
           (Z.land (byte_val c2) utf8.maskx), 3%nat).
Proof.
  intros H0 H1 H2 HE0 HED. unfold utf8.DecodeRuneInString.
  split_first c0; try lia;
    unfold utf8.locb, utf8.hicb; decide_tests; done.
Qed.

Lemma DecodeRune_4 (c0 c1 c2 c3 : ascii) (t : string) :
  0xF0 ≤ byte_val c0 ≤ 0xF4 →
  0x80 ≤ byte_val c1 ≤ 0xBF → 0x80 ≤ byte_val c2 ≤ 0xBF →
  0x80 ≤ byte_val c3 ≤ 0xBF →
  (byte_val c0 = 0xF0 → 0x90 ≤ byte_val c1) →
  (byte_val c0 = 0xF4 → byte_val c1 ≤ 0x8F) →
  utf8.DecodeRuneInString (String c0 (String c1 (String c2 (String c3 t))))
  = (Z.lor (Z.lor (Z.lor (Z.shiftl (Z.land (byte_val c0) utf8.mask4) 18)
                         (Z.shiftl (Z.land (byte_val c1) utf8.maskx) 12))
                  (Z.shiftl (Z.land (byte_val c2) utf8.maskx) 6))
           (Z.land (byte_val c3) utf8.maskx), 4%nat).
Proof.
  intros H0 H1 H2 H3 HF0 HF4. unfold utf8.DecodeRuneInString.
  split_first c0; try lia;
    unfold utf8.locb, utf8.hicb; decide_tests; done.
Qed.

Ltac bool_to_Z :=
  repeat match goal with
  | H : _ || _ = false |- _ => apply orb_false_iff in H as [? ?]
  | H : (_ <? _) = false |- _ => apply Z.ltb_ge in H
  | H : (_ <? _) = true |- _ => apply Z.ltb_lt in H
  end.

(** A multi-byte sequence that decodes without error has one of three
    shapes. *)
Lemma DecodeRune_inv (c0 : ascii) (t : string) (r : Z) (size : nat) :
  0x80 ≤ byte_val c0 →
  utf8.DecodeRuneInString (String c0 t) = (r, size) →
  (r =? utf8.RuneError) && (size =? 1)%nat = false →
  (∃ c1 t1, t = String c1 t1
     ∧ 0xC2 ≤ byte_val c0 ≤ 0xDF ∧ 0x80 ≤ byte_val c1 ≤ 0xBF)
  ∨ (∃ c1 c2 t2, t = String c1 (String c2 t2)
     ∧ 0xE0 ≤ byte_val c0 ≤ 0xEF
     ∧ 0x80 ≤ byte_val c1 ≤ 0xBF ∧ 0x80 ≤ byte_val c2 ≤ 0xBF
     ∧ (byte_val c0 = 0xE0 → 0xA0 ≤ byte_val c1)
     ∧ (byte_val c0 = 0xED → byte_val c1 ≤ 0x9F))
  ∨ (∃ c1 c2 c3 t3, t = String c1 (String c2 (String c3 t3))
     ∧ 0xF0 ≤ byte_val c0 ≤ 0xF4
     ∧ 0x80 ≤ byte_val c1 ≤ 0xBF ∧ 0x80 ≤ byte_val c2 ≤ 0xBF
     ∧ 0x80 ≤ byte_val c3 ≤ 0xBF
     ∧ (byte_val c0 = 0xF0 → 0x90 ≤ byte_val c1)
     ∧ (byte_val c0 = 0xF4 → byte_val c1 ≤ 0x8F)).
Proof.
  intros Hb. unfold utf8.DecodeRuneInString.
  split_first c0;
    repeat match goal with
    | |- context [if ?c then _ else _] => destruct c eqn:?
    | |- context [match ?s with EmptyString => _ | String _ _ => _ end] =>
        destruct s
    end;
    intros [= <- <-] Herr; try discriminate Herr;
    unfold utf8.locb, utf8.hicb in *; bool_to_Z;
    solve [ left; do 2 eexists; split; [reflexivity|lia]
          | right; left; do 3 eexists; split; [reflexivity|lia]
          | right; right; do 4 eexists; split; [reflexivity|lia] ].
Qed.

(** A rune read from a multi-byte sequence is encoded as the bytes it was
    read from, and is read the same whatever follows them. *)
Lemma DecodeRune_multibyte (c0 : ascii) (t : string) (r : Z) (size : nat) :
  0x80 ≤ byte_val c0 →
  utf8.DecodeRuneInString (String c0 t) = (r, size) →
  (r =? utf8.RuneError) && (size =? 1)%nat = false →
  ∃ pre rest, t = (pre ++ rest)%string
    ∧ S (String.length pre) = size
    ∧ utf8.EncodeRune r = String c0 pre
    ∧ ∀ more, utf8.DecodeRuneInString (String c0 (pre ++ more)) = (r, size).
Proof.
  intros Hb Hd Herr.
  destruct (DecodeRune_inv c0 t r size Hb Hd Herr)
    as [(c1 & t1 & -> & H0 & H1)
       |[(c1 & c2 & t2 & -> & H0 & H1 & H2 & HE0 & HED)
        |(c1 & c2 & c3 & t3 & -> & H0 & H1 & H2 & H3 & HF0 & HF4)]].
  - rewrite DecodeRune_2 in Hd by done. injection Hd as <- <-.
    exists (String c1 EmptyString), t1.
    split; [done|]. split; [done|]. split.
    + rewrite EncodeRune_2 by done. by rewrite !byte_of_val.
    + intros more. cbn [String.append]. by rewrite DecodeRune_2.
  - rewrite DecodeRune_3 in Hd by done. injection Hd as <- <-.
    exists (String c1 (String c2 EmptyString)), t2.
    split; [done|]. split; [done|]. split.
    + rewrite EncodeRune_3 by done. by rewrite !byte_of_val.
    + intros more. cbn [String.append]. by rewrite DecodeRune_3.
  - rewrite DecodeRune_4 in Hd by done. injection Hd as <- <-.
    exists (String c1 (String c2 (String c3 EmptyString))), t3.
    split; [done|]. split; [done|]. split.
    + rewrite EncodeRune_4 by done. by rewrite !byte_of_val.
    + intros more. cbn [String.append]. by rewrite DecodeRune_4.
Qed.

(** ** Strings: what [encodeState.string] writes, [unquote] reads back *)

Lemma getu4_hex (c : ascii) (X : string) :
  json.getu4
    (String backslash (String "u" (String "0" (String "0"
      (String (json.hex_digit (Z.shiftr (byte_val c) 4))
        (String (json.hex_digit (Z.land (byte_val c) 0xF)) X))))))
  = byte_val c.
Proof.
  change (json.getu4
    (String backslash (String "u" (String "0" (String "0"
      (String (json.hex_digit (Z.shiftr (byte_val c) 4))
        (String (json.hex_digit (Z.land (byte_val c) 0xF)) EmptyString))))))
    = byte_val c).
  apply Z.eqb_eq.
  apply (forallb_bytes (λ b,
    json.getu4 (String backslash (String "u" (String "0" (String "0"
      (String (json.hex_digit (Z.shiftr b 4))
        (String (json.hex_digit (Z.land b 0xF)) EmptyString))))))
    =? b)).
  vm_compute. reflexivity.
Qed.

(** One round of [unquote_loop] on a byte copied as it is. *)
Lemma unquote_plain (f : nat) (c : ascii) (t : string) :
  byte_val c ≠ 34 → byte_val c ≠ 92 → 0x20 ≤ byte_val c < 0x80 →
  json.unquote_loop (S f) (String c t)
  = json.prepend (String c EmptyString) (json.unquote_loop f t).
Proof.
  intros H34 H92 Hr. cbn [json.unquote_loop]. cbv zeta.
  rewrite (proj2 (Z.eqb_neq _ _) H34), (proj2 (Z.eqb_neq _ _) H92).
  rewrite (proj2 (Z.ltb_ge _ _)) by lia.
  unfold utf8.RuneSelf. by rewrite (proj2 (Z.ltb_lt _ _)) by lia.
Qed.

(** One round on an escape [\uXXXX] of a rune that is not a surrogate. *)
Lemma unquote_u (f : nat) (s t : string) (rr : Z) :
  s = String backslash (String "u" t) →
  json.getu4 s = rr → 0 ≤ rr → utf16.IsSurrogate rr = false →
  json.unquote_loop (S f) s
  = json.prepend (utf8.EncodeRune rr) (json.unquote_loop f (string_drop 6 s)).
Proof.
  intros -> Hg H0 Hs. cbn [json.unquote_loop]. cbv zeta.
  change (byte_val backslash =? 34) with false.
  change (byte_val backslash =? 92) with true.
  change (byte_val "u") with 117. cbv iota.
  rewrite Hg, Hs. by rewrite (proj2 (Z.ltb_ge _ _)) by lia.
Qed.

(** One round on the first byte of a multi-byte sequence. *)
Lemma unquote_multibyte (f : nat) (c : ascii) (t : string) :
  0x80 ≤ byte_val c →
  json.unquote_loop (S f) (String c t)
  = json.prepend (utf8.EncodeRune (utf8.DecodeRuneInString (String c t)).1)
      (json.unquote_loop f
         (string_drop (utf8.DecodeRuneInString (String c t)).2 (String c t))).
Proof.
  intros H. cbn [json.unquote_loop]. cbv zeta.
  rewrite (proj2 (Z.eqb_neq _ _)), (proj2 (Z.eqb_neq _ _)) by lia.
  unfold utf8.RuneSelf. rewrite !(proj2 (Z.ltb_ge _ _)) by lia.
  by destruct (utf8.DecodeRuneInString (String c t)).
Qed.

(** What the encoder writes for a byte below [RuneSelf], the decoder reads
    as that byte. *)
Lemma unquote_ascii (f : nat) (c : ascii) (Y : string) :
  byte_val c < 0x80 →
  json.unquote_loop (S f)
    ((if json.safe (byte_val c) then String c EmptyString
      else json.escape_byte c) ++ Y)
  = json.prepend (String c EmptyString) (json.unquote_loop f Y).
Proof.
  intros Hc. pose proof (byte_val_range c) as Hr.
  pose proof (byte_of_val c) as Hbc.
  destruct (json.safe (byte_val c)) eqn:Hs.
  - unfold json.safe in Hs.
    repeat (apply andb_true_iff in Hs; destruct Hs as [Hs ?]).
    repeat match goal with
    | H : negb _ = true |- _ => apply negb_true_iff, Z.eqb_neq in H
    end.
    apply Z.leb_le in Hs.
    cbn [String.append]. apply unquote_plain; lia.
  - unfold json.escape_byte.
    destruct (Z.eqb_spec (byte_val c) 92) as [E|E92].
    { rewrite E in Hbc. subst c. reflexivity. }
    destruct (Z.eqb_spec (byte_val c) 34) as [E|E34].
    { rewrite E in Hbc. subst c. reflexivity. }
    cbn [orb].
    destruct (Z.eqb_spec (byte_val c) 10) as [E|E10].
    { rewrite E in Hbc. subst c. reflexivity. }
    destruct (Z.eqb_spec (byte_val c) 13) as [E|E13].
    { rewrite E in Hbc. subst c. reflexivity. }
    destruct (Z.eqb_spec (byte_val c) 9) as [E|E9].
    { rewrite E in Hbc. subst c. reflexivity. }
    cbn [String.append].
    erewrite unquote_u; [| reflexivity | apply getu4_hex | lia | ].
    + cbn [string_drop]. unfold utf8.EncodeRune.
      replace ((0 <=? byte_val c) && (byte_val c <=? 0x7F)) with true
        by (symmetry; apply andb_true_iff; lia).
      by rewrite Hbc.
    + unfold utf16.IsSurrogate, utf16.surr1. apply andb_false_iff. left. lia.
Qed.

Lemma escape_nonempty (c : ascii) :
  (1 ≤ String.length
         (if json.safe (byte_val c) then String c EmptyString
          else json.escape_byte c))%nat.
Proof.
  destruct (json.safe _); [simpl; lia|]. unfold json.escape_byte.
  repeat match goal with
  | |- context [if ?b then _ else _] => destruct b
  end; simpl; lia.
Qed.

Lemma unquote_quote (f : nat) (X : string) :
  json.unquote_loop (S f) (String quote_char X) = Some (EmptyString, X).
Proof. reflexivity. Qed.

(** A valid string, encoded and followed by the closing quote, is read back
    whole, with enough fuel for one round per byte written. *)
Lemma unquote_encode_loop (n : nat) (s X : string) (f : nat) :
  (String.length s ≤ n)%nat →
  utf8.ValidString_loop n s = true →
  (String.length (json.encode_loop n s) < f)%nat →
  json.unquote_loop f (json.encode_loop n s ++ String quote_char X)
  = Some (s, X).
Proof.
  revert s X f. induction n as [|n IH]; intros s X f Hlen Hvalid Hfuel.
  { destruct s; [|simpl in Hlen; lia]. destruct f; [simpl in Hfuel; lia|].
    apply unquote_quote. }
  destruct s as [|c t].
  { destruct f; [simpl in Hfuel; lia|]. apply unquote_quote. }
  simpl in Hlen. cbn [json.encode_loop utf8.ValidString_loop] in *.
  cbv zeta in *.
  destruct (Z.ltb_spec (byte_val c) utf8.RuneSelf) as [Hc|Hc];
    unfold utf8.RuneSelf in Hc.
  - rewrite DecodeRune_ascii in Hvalid by done.
    replace ((byte_val c =? utf8.RuneError) && (1 =? 1)%nat) with false in Hvalid
      by (symmetry; apply andb_false_iff; left; apply Z.eqb_neq;
          unfold utf8.RuneError; lia).
    cbn [string_drop] in Hvalid.
    rewrite string_length_app in Hfuel. pose proof (escape_nonempty c).
    destruct f as [|f]; [lia|].
    rewrite string_app_assoc, unquote_ascii by done.
    rewrite IH by (done || lia). done.
  - destruct (utf8.DecodeRuneInString (String c t)) as [r size] eqn:Hd.
    destruct ((r =? utf8.RuneError) && (size =? 1)%nat) eqn:Herr; [done|].
    destruct (DecodeRune_multibyte c t r size Hc Hd Herr)
      as (pre & rest & -> & Hsize & Henc & Hmore).
    subst size. cbn [string_drop string_take] in *.
    rewrite string_drop_app in *. rewrite string_take_app in *.
    rewrite string_length_app in Hlen.
    destruct ((r =? 0x2028) || (r =? 0x2029)) eqn:Hls.
    + cbn [String.append] in *. simpl in Hfuel.
      destruct f as [|f]; [lia|].
      erewrite unquote_u with (rr := r); [| reflexivity | | | ].
      * cbn [string_drop]. rewrite Henc, IH by (done || lia). done.
      * apply orb_true_iff in Hls as [->%Z.eqb_eq| ->%Z.eqb_eq]; reflexivity.
      * apply orb_true_iff in Hls as [->%Z.eqb_eq| ->%Z.eqb_eq]; lia.
      * apply orb_true_iff in Hls as [->%Z.eqb_eq| ->%Z.eqb_eq]; reflexivity.
    + cbn [String.append] in *. simpl in Hfuel. rewrite string_length_app in Hfuel.
      destruct f as [|f]; [lia|].
      rewrite string_app_assoc, unquote_multibyte, Hmore by done.
      cbn [fst snd string_drop]. rewrite string_drop_app, Henc.
      rewrite IH by (done || lia). done.
Qed.

Lemma unquote_encode (s X : string) :
  utf8.ValidString s = true →
  json.unquote (json.encode_loop (String.length s) s ++ String quote_char X)
  = Some (s, X).
Proof.
  intros Hv. unfold json.unquote. apply unquote_encode_loop; [done|done|].
  rewrite string_length_app. simpl. lia.
Qed.

(** ** Objects: [Unmarshal] after [Marshal] *)

Lemma encode_entry_app (k v Y : string) :
  (json.encode_entry (k, v) ++ Y)%string
  = String quote_char
      (json.encode_loop (String.length k) k ++
       String quote_char (String ":" (String quote_char
         (json.encode_loop (String.length v) v ++ String quote_char Y)))).
Proof.
  unfold json.encode_entry, json.encode_string. cbn [fst snd String.append].
  f_equal. rewrite !string_app_assoc. cbn [String.append]. f_equal.
  rewrite !string_app_assoc. done.
Qed.

(** One round of [object_loop] on a member written by the encoder. *)
Lemma object_loop_step (f : nat) (k v Y : string) (m : gmap string string) :
  utf8.ValidString k = true → utf8.ValidString v = true →
  json.object_loop (S f) (json.encode_entry (k, v) ++ Y) m
  = match Y with
    | String sep rest =>
      if (sep =? ",")%char then json.object_loop f rest (<[k:=v]> m)
      else if (sep =? "}")%char then
        match rest with
        | EmptyString => Some (<[k:=v]> m)
        | String _ _ => None
        end
      else None
    | EmptyString => None
    end.
Proof.
  intros Hk Hv. rewrite encode_entry_app. cbn [json.object_loop].
  change (quote_char =? quote_char)%char with true. cbv iota.
  rewrite unquote_encode by done.
  change (":" =? ":")%char with true. cbn [andb]. cbv iota.
  rewrite unquote_encode by done. done.
Qed.

Lemma join_comma_cons (e : string) (l : list string) (Y : string) :
  (json.join_comma (e :: l) ++ Y)%string
  = (e ++ match l with
          | [] => Y
          | _ :: _ => String "," (json.join_comma l ++ Y)
          end)%string.
Proof.
  destruct l as [|e' l]; [done|].
  cbn [json.join_comma]. by rewrite string_app_assoc.
Qed.

Lemma object_loop_entries (l : list (string * string)) (m : gmap string string)
    (fuel : nat) :
  l ≠ [] →
  (∀ kv, kv ∈ l → utf8.ValidString kv.1 = true ∧ utf8.ValidString kv.2 = true) →
  (length l ≤ fuel)%nat →
  json.object_loop fuel (json.join_comma (json.encode_entry <$> l) ++ "}") m
  = Some (foldl (λ m kv, <[kv.1:=kv.2]> m) m l).
Proof.
  revert m fuel. induction l as [|[k v] l IH]; intros m fuel Hne Hv Hfuel; [done|].
  destruct fuel as [|f]; [simpl in Hfuel; lia|].
  destruct (Hv (k, v)) as [Hk Hv']; [apply list_elem_of_here|]. simpl in Hk, Hv'.
  rewrite fmap_cons, join_comma_cons, object_loop_step by done.
  destruct l as [|kv' l]; [done|].
  rewrite fmap_cons. cbn [foldl].
  change ("," =? ",")%char with true. cbv iota.
  rewrite <- fmap_cons. apply IH; [done| |simpl in *; lia].
  intros kv Hin. by apply Hv, list_elem_of_further.
Qed.

Lemma foldl_insert_list_to_map (l : list (string * string)) :
  foldl (λ (m : gmap string string) kv, <[kv.1:=kv.2]> m) ∅ l
  = list_to_map (reverse l).
Proof.
  induction l as [|[k v] l IH] using rev_ind; [done|].
  rewrite foldl_app, reverse_snoc. simpl. by rewrite IH.
Qed.

Lemma entries_length (l : list (string * string)) :
  (length l ≤ String.length (json.join_comma (json.encode_entry <$> l)))%nat.
Proof.
  induction l as [|[k v] l IH]; [done|].
  rewrite fmap_cons.
  assert (He : (1 ≤ String.length (json.encode_entry (k, v)))%nat).
  { unfold json.encode_entry, json.encode_string. simpl. lia. }
  destruct l as [|kv l]; [simpl in *; lia|].
  cbn [json.join_comma] in *. rewrite fmap_cons in *.
  rewrite !string_length_app. simpl in *. lia.
Qed.

(** [json.Unmarshal] gives back the map that [json.Marshal] encoded when the
    keys and the values are valid UTF-8. *)
Lemma Unmarshal_Marshal (m : gmap string string) :
  (∀ k v, m !! k = Some v →
     utf8.ValidString k = true ∧ utf8.ValidString v = true) →
  json.Unmarshal (json.Marshal m) = Some (Some m).
Proof.
  intros Hvalid. unfold json.Marshal, json.Unmarshal.
  pose proof (merge_sort_Permutation json.key_le (map_to_list m)) as Hperm.
  fold (json.sorted_entries m) in Hperm.
  cbn [String.append]. change (String.eqb (String "{" _) "null") with false.
  cbv iota. change ("{" =? "{")%char with true. cbv iota.
  destruct (json.sorted_entries m) as [|[k v] l] eqn:Hl.
  { apply Permutation_nil_l in Hperm. symmetry in Hperm.
    apply map_to_list_empty_iff in Hperm as ->. done. }
  rewrite fmap_cons, join_comma_cons, encode_entry_app.
  change (String.eqb (String quote_char ?x) "}") with false. cbv iota.
  rewrite <- encode_entry_app, <- join_comma_cons, <- fmap_cons.
  rewrite object_loop_entries.
  - rewrite foldl_insert_list_to_map. do 2 f_equal.
    rewrite <- (list_to_map_to_list m).
    apply list_to_map_proper.
    + rewrite reverse_Permutation, Hperm. apply NoDup_fst_map_to_list.
    + by rewrite reverse_Permutation.
  - done.
  - intros [k' v'] Hin. apply Hvalid, elem_of_map_to_list.
    by rewrite <- Hperm.
  - etrans; [apply entries_length|]. rewrite string_length_app. lia.
Qed.

(** ** [CreateDongle] then [GetDongle] *)

Lemma valid_properties_lookup (d : Dongle) (m : gmap string string) (k v : string) :
  valid_properties d = true → Properties d = Some m → m !! k = Some v →
  utf8.ValidString k = true ∧ utf8.ValidString v = true.
Proof.
  unfold valid_properties. intros Hv Hp Hl. rewrite Hp in Hv.
  rewrite forallb_forall in Hv.
  specialize (Hv (k, v)). apply andb_true_iff, Hv, list_elem_of_In.
  by apply elem_of_map_to_list.
Qed.

(** C4, as stated, fails: [json.Marshal] replaces a byte that is not valid
    UTF-8 by the escape of U+FFFD, so the value FF of the property ID_MODEL
    is read back as the three bytes EF BF BD. *)
Lemma CreateDongle_GetDongle_not_utf8 :
  ¬ (∀ (now1 now2 : Z) (db db' : ql.DB) (b : Dongle),
       ready db → CreateDongle now1 now2 db b = (db', None) →
       ∃ d, GetDongle db' (Path b) = Ok d ∧ Properties d = Properties b).
Proof.
  intros H.
  destruct (H 1 1 store0 (CreateDongle 1 1 store0 binding_FF).1 binding_FF)
    as (d & Hd & Hp); [by repeat split|done|].
  vm_compute in Hd. injection Hd as <-. simpl in Hp.
  apply (f_equal (λ o : option (gmap string string),
                    m ← o; m !! "ID_MODEL")) in Hp.
  vm_compute in Hp. discriminate Hp.
Qed.

(** With the index in place a successful insert was on a free path. *)
Lemma CreateDongle_fresh now1 now2 db d db' :
  ready db → CreateDongle now1 now2 db d = (db', None) →
  Path d ∉ ql.path <$> ql.rows db.
Proof.
  intros (Hc & Ht & Hi). unfold CreateDongle, ql.transaction, ql.Begin.
  rewrite Hc. simpl. rewrite Ht, Hi. simpl.
  case_bool_decide; simpl; [done|]. by intros _.
Qed.

(** C4, amended. For a binding whose property keys and values are valid
    UTF-8, after a successful [CreateDongle] on a store with the schema the
    one row with the path of the binding holds no blob for a nil map and the
    encoded map otherwise, and [GetDongle] on that path returns a binding
    with the same [Properties]: nil for nil, an equal map for a map, the
    empty map included. *)
Theorem CreateDongle_GetDongle (now1 now2 : Z) (db db' : ql.DB) (b : Dongle) :
  ready db →
  valid_properties b = true →
  CreateDongle now1 now2 db b = (db', None) →
  ∃ r d,
    filter (λ r, ql.path r = Path b) (ql.rows db') = [r]
    ∧ ql.properties r = json.Marshal <$> Properties b
    ∧ GetDongle db' (Path b) = Ok d
    ∧ Properties d = Properties b
    ∧ (Properties b = None → ql.properties r = None ∧ Properties d = None).
Proof.
  intros Hr Hv Hc. pose proof (CreateDongle_fresh _ _ _ _ _ Hr Hc) as Hfresh.
  apply CreateDongle_success in Hc as (Hcl & Ht & ->).
  assert (Hscan : ∀ r, ql.properties r = json.Marshal <$> Properties b →
            ∃ d, scan r = Ok d ∧ Properties d = Properties b).
  { intros r Hp'. unfold scan. rewrite Hp'.
    destruct (Properties b) as [m|] eqn:Hp; simpl.
    - rewrite Unmarshal_Marshal
        by (intros k v Hl; by eapply valid_properties_lookup).
      by eexists.
    - by eexists. }
  assert (Hnone : filter (λ r, ql.path r = Path b) (ql.rows db) = []).
  { apply filter_none. intros r Hin Hp. apply Hfresh.
    apply list_elem_of_fmap. by exists r. }
  edestruct Hscan as (d & Hd & Hpd); [|eexists; exists d].
  2:{ unfold GetDongle, scan_one, ql.select_by_path, ql.table. simpl.
      rewrite Hcl, Ht. simpl. rewrite filter_cons_True by done.
      rewrite Hnone. simpl.
      split; [reflexivity|]. split; [reflexivity|]. split; [exact Hd|].
      split; [exact Hpd|]. intros Hn. unfold marshal_properties.
      rewrite Hpd, Hn. done. }
  reflexivity.
Qed.

Lemma CreateDongle_GetDongle_witness :
  ∃ r d,
    filter (λ r, ql.path r = Path binding_E173)
      (ql.rows (CreateDongle 1 2 store0 binding_E173).1) = [r]
    ∧ ql.properties r = json.Marshal <$> Properties binding_E173
    ∧ GetDongle (CreateDongle 1 2 store0 binding_E173).1 (Path binding_E173)
      = Ok d
    ∧ Properties d = Properties binding_E173
    ∧ (Properties binding_E173 = None →
       ql.properties r = None ∧ Properties d = None).
Proof.
  apply (CreateDongle_GetDongle 1 2 store0 _ binding_E173).
  - exact store0_ready.
  - vm_compute. reflexivity.
  - reflexivity.
Defined.

(** * The rest of the package *)

(** ** Every text [json.Marshal] writes is read by [json.Unmarshal] *)

(** Whatever the bytes of [s], its encoding followed by the closing quote is
    a literal the decoder accepts. *)
Lemma unquote_encode_loop_total (n : nat) (s X : string) (f : nat) :
  (String.length s ≤ n)%nat →
  (String.length (json.encode_loop n s) < f)%nat →
  ∃ out, json.unquote_loop f (json.encode_loop n s ++ String quote_char X)
         = Some (out, X).
Proof.
  revert s X f. induction n as [|n IH]; intros s X f Hlen Hfuel.
  { destruct s; [|simpl in Hlen; lia]. destruct f; [simpl in Hfuel; lia|].
    eexists. apply unquote_quote. }
  destruct s as [|c t].
  { destruct f; [simpl in Hfuel; lia|]. eexists. apply unquote_quote. }
  simpl in Hlen. cbn [json.encode_loop] in *. cbv zeta in *.
  destruct (Z.ltb_spec (byte_val c) utf8.RuneSelf) as [Hc|Hc];
    unfold utf8.RuneSelf in Hc.
  - rewrite string_length_app in Hfuel. pose proof (escape_nonempty c).
    destruct f as [|f]; [lia|].
    rewrite string_app_assoc, unquote_ascii by done.
    destruct (IH t X f) as [out ->]; [lia|lia|]. by eexists.
  - destruct (utf8.DecodeRuneInString (String c t)) as [r size] eqn:Hd.
    destruct ((r =? utf8.RuneError) && (size =? 1)%nat) eqn:Herr.
    + cbn [String.append] in *. simpl in Hfuel.
      destruct f as [|f]; [lia|].
      erewrite unquote_u with (rr := 0xFFFD);
        [| reflexivity | reflexivity | lia | reflexivity].
      cbn [string_drop].
      destruct (IH t X f) as [out ->]; [lia|lia|]. by eexists.
    + destruct (DecodeRune_multibyte c t r size Hc Hd Herr)
        as (pre & rest & -> & Hsize & Henc & Hmore).
      subst size. cbn [string_drop string_take] in *.
      rewrite string_drop_app in *. rewrite string_take_app in *.
      rewrite string_length_app in Hlen.
      destruct ((r =? 0x2028) || (r =? 0x2029)) eqn:Hls.
      * cbn [String.append] in *. simpl in Hfuel.
        destruct f as [|f]; [lia|].
        erewrite unquote_u with (rr := r); [| reflexivity | | | ].
        -- cbn [string_drop].
           destruct (IH rest X f) as [out ->]; [lia|lia|]. by eexists.
        -- apply orb_true_iff in Hls as [->%Z.eqb_eq| ->%Z.eqb_eq]; reflexivity.
        -- apply orb_true_iff in Hls as [->%Z.eqb_eq| ->%Z.eqb_eq]; lia.
        -- apply orb_true_iff in Hls as [->%Z.eqb_eq| ->%Z.eqb_eq]; reflexivity.
      * cbn [String.append] in *. simpl in Hfuel.
        rewrite string_length_app in Hfuel.
        destruct f as [|f]; [lia|].
        rewrite string_app_assoc, unquote_multibyte, Hmore by done.
        cbn [fst snd string_drop]. rewrite string_drop_app.
        destruct (IH rest X f) as [out ->]; [lia|lia|]. by eexists.
Qed.

Lemma unquote_encode_total (s X : string) :
  ∃ out, json.unquote
           (json.encode_loop (String.length s) s ++ String quote_char X)
         = Some (out, X).
Proof.
  unfold json.unquote. apply unquote_encode_loop_total; [done|].
  rewrite string_length_app. simpl. lia.
Qed.

Lemma object_loop_step_total (f : nat) (k v Y : string) :
  ∃ k' v', ∀ m : gmap string string,
    json.object_loop (S f) (json.encode_entry (k, v) ++ Y) m
    = match Y with
      | String sep rest =>
        if (sep =? ",")%char then json.object_loop f rest (<[k':=v']> m)
        else if (sep =? "}")%char then
          match rest with
          | EmptyString => Some (<[k':=v']> m)
          | String _ _ => None
          end
        else None
      | EmptyString => None
      end.
Proof.
  rewrite encode_entry_app.
  destruct (unquote_encode_total k
    (String ":" (String quote_char
       (json.encode_loop (String.length v) v ++ String quote_char Y))))
    as [k' Hk].
  destruct (unquote_encode_total v Y) as [v' Hv].
  exists k', v'. intros m. cbn [json.object_loop].
  change (quote_char =? quote_char)%char with true. cbv iota.
  rewrite Hk. change (":" =? ":")%char with true. cbn [andb]. cbv iota.
  by rewrite Hv.
Qed.

Lemma object_loop_entries_total (l : list (string * string))
    (m : gmap string string) (fuel : nat) :
  l ≠ [] → (length l ≤ fuel)%nat →
  ∃ m', json.object_loop fuel
          (json.join_comma (json.encode_entry <$> l) ++ "}") m = Some m'.
Proof.
  revert m fuel. induction l as [|[k v] l IH]; intros m fuel Hne Hfuel; [done|].
  destruct fuel as [|f]; [simpl in Hfuel; lia|].
  rewrite fmap_cons, join_comma_cons.
  destruct (object_loop_step_total f k v
    match json.encode_entry <$> l with
    | [] => "}"
    | _ :: _ => String "," (json.join_comma (json.encode_entry <$> l) ++ "}")
    end) as (k' & v' & ->).
  destruct l as [|kv' l]; [by eexists|].
  rewrite fmap_cons. change ("," =? ",")%char with true. cbv iota.
  rewrite <- fmap_cons. apply IH; [done|simpl in *; lia].
Qed.

(** [json.Unmarshal] accepts what [json.Marshal] wrote for any map, and
    yields a map, not nil. *)
Lemma Unmarshal_Marshal_total (m : gmap string string) :
  ∃ m', json.Unmarshal (json.Marshal m) = Some (Some m').
Proof.
  unfold json.Marshal, json.Unmarshal.
  cbn [String.append]. change (String.eqb (String "{" _) "null") with false.
  cbv iota. change ("{" =? "{")%char with true. cbv iota.
  destruct (json.sorted_entries m) as [|[k v] l] eqn:Hl; [by eexists|].
  rewrite fmap_cons, join_comma_cons, encode_entry_app.
  change (String.eqb (String quote_char ?x) "}") with false. cbv iota.
  rewrite <- encode_entry_app, <- join_comma_cons, <- fmap_cons.
  destruct (object_loop_entries_total ((k, v) :: l) ∅
    (String.length
       (json.join_comma (json.encode_entry <$> ((k, v) :: l)) ++ "}")))
    as [m' ->]; [done| |by eexists].
  etrans; [apply entries_length|]. rewrite string_length_app. lia.
Qed.

(** ** The writers, on a store that can be written *)

Lemma CreateDongle_cases now1 now2 db d :
  ready db →
  (Path d ∈ (ql.path <$> ql.rows db)
   ∧ CreateDongle now1 now2 db d = (db, Some ql.ErrDuplicate))
  ∨ ((Path d ∉ ql.path <$> ql.rows db)
     ∧ CreateDongle now1 now2 db d
       = (ql.set_rows db
            ({| ql.imei := IMEI d; ql.imsi := IMSI d; ql.path := Path d;
                ql.symlink := IsSymlinked d; ql.tty := TTY d; ql.ati := ATI d;
                ql.properties := marshal_properties d;
                ql.created_on := now1; ql.updated_on := now2 |} :: ql.rows db),
          None)).
Proof.
  intros (Hc & Ht & Hi). unfold CreateDongle, ql.transaction, ql.Begin.
  rewrite Hc. simpl. rewrite Ht, Hi. simpl.
  case_bool_decide; simpl; [by left|by right].
Qed.

Lemma UpdateDongle_rows now db d :
  ql.closed db = false → ql.has_table db = true →
  UpdateDongle now db d
  = (ql.set_rows db
       (ql.update_row (IMEI d) (IMSI d) (Path d) (IsSymlinked d) (TTY d)
          (marshal_properties d) (CreatedOn d) now <$> ql.rows db), None).
Proof.
  intros Hc Ht. unfold UpdateDongle, ql.transaction, ql.Begin.
  rewrite Hc. simpl. by rewrite Ht.
Qed.

Lemma RemoveDongle_rows db d :
  ql.closed db = false → ql.has_table db = true →
  RemoveDongle db d
  = (ql.set_rows db (filter (λ r, ql.imei r ≠ IMEI d) (ql.rows db)), None).
Proof.
  intros Hc Ht. unfold RemoveDongle, ql.transaction, ql.Begin.
  rewrite Hc. simpl. by rewrite Ht.
Qed.

Lemma update_row_path a1 a2 a3 a4 a5 a6 a7 now r :
  ql.path (ql.update_row a1 a2 a3 a4 a5 a6 a7 now r) = ql.path r.
Proof.
  unfold ql.update_row.
  destruct (bool_decide (ql.path r = a3)) eqn:E1;
    destruct (bool_decide (ql.imei r = a1)); simpl; try done.
  by apply bool_decide_eq_true in E1.
Qed.

Lemma update_row_imei a1 a2 a3 a4 a5 a6 a7 now r :
  ql.imei (ql.update_row a1 a2 a3 a4 a5 a6 a7 now r) = ql.imei r.
Proof.
  unfold ql.update_row.
  destruct (bool_decide (ql.path r = a3));
    destruct (bool_decide (ql.imei r = a1)) eqn:E2; simpl; try done.
  by apply bool_decide_eq_true in E2.
Qed.

Lemma update_row_ati a1 a2 a3 a4 a5 a6 a7 now r :
  ql.ati (ql.update_row a1 a2 a3 a4 a5 a6 a7 now r) = ql.ati r.
Proof.
  unfold ql.update_row.
  by destruct (bool_decide (ql.path r = a3));
    destruct (bool_decide (ql.imei r = a1)).
Qed.

Lemma update_row_other a1 a2 a3 a4 a5 a6 a7 now r :
  ¬ (ql.imei r = a1 ∧ ql.path r = a3) →
  ql.update_row a1 a2 a3 a4 a5 a6 a7 now r = r.
Proof.
  intros Hn. unfold ql.update_row.
  destruct (bool_decide (ql.path r = a3)) eqn:E1;
    destruct (bool_decide (ql.imei r = a1)) eqn:E2; simpl; try done.
  apply bool_decide_eq_true in E1, E2. by destruct Hn.
Qed.

Lemma update_row_match a1 a2 a3 a4 a5 a6 a7 now r :
  ql.imei r = a1 → ql.path r = a3 →
  ql.update_row a1 a2 a3 a4 a5 a6 a7 now r
  = {| ql.imei := a1; ql.imsi := a2; ql.path := a3; ql.symlink := a4;
       ql.tty := a5; ql.ati := ql.ati r; ql.properties := a6;
       ql.created_on := a7; ql.updated_on := now |}.
Proof.
  intros H1 H3. unfold ql.update_row. by rewrite !bool_decide_eq_true_2.
Qed.

Lemma NoDup_fmap_filter {A B} (f : A → B) (P : A → Prop)
    `{∀ x, Decision (P x)} (l : list A) :
  NoDup (f <$> l) → NoDup (f <$> filter P l).
Proof.
  induction l as [|x l IH]; [done|]. rewrite fmap_cons, NoDup_cons.
  intros [Hx Hl]. rewrite filter_cons. case_decide; [|by apply IH].
  rewrite fmap_cons, NoDup_cons. split; [|by apply IH].
  intros (y & Hy & Hin)%list_elem_of_fmap. apply Hx.
  apply list_elem_of_fmap. exists y. split; [done|].
  by apply list_elem_of_filter in Hin as [_ ?].
Qed.

(** ** What every store of the package satisfies *)

Lemma reachable_inv (db : ql.DB) :
  reachable db →
  ready db
  ∧ NoDup (ql.path <$> ql.rows db)
  ∧ ∀ r p, r ∈ ql.rows db → ql.properties r = Some p →
      ∃ m, p = json.Marshal m.
Proof.
  induction 1 as [db Hdb|db _ IH|now1 now2 db d _ IH|now db d _ IH|db d _ IH].
  - rewrite DB_store0 in Hdb. injection Hdb as <-.
    split; [exact store0_ready|]. split; [constructor|].
    intros r p Hr. by apply elem_of_nil in Hr.
  - destruct IH as (Hr & Hn & Hb).
    rewrite Migration_index_exists by apply Hr. done.
  - destruct IH as (Hr & Hn & Hb).
    destruct (CreateDongle_cases now1 now2 db d Hr) as [[_ ->]|[Hfresh ->]];
      [done|].
    simpl. split; [destruct Hr as (? & ? & ?); by repeat split|].
    split; [by constructor|].
    intros r p [->|Hin]%elem_of_cons; [|by eapply Hb].
    simpl. unfold marshal_properties.
    destruct (Properties d) as [m|]; simpl; [|done].
    intros [= <-]. by eexists.
  - destruct IH as (Hr & Hn & Hb). pose proof Hr as (Hc & Ht & Hi).
    rewrite UpdateDongle_rows by done. simpl.
    split; [by repeat split|]. split.
    + rewrite <- list_fmap_compose.
      erewrite list_fmap_ext; [exact Hn|].
      intros i r _. simpl. apply update_row_path.
    + intros r p [r0 [-> Hr0]]%list_elem_of_fmap.
      destruct (decide (ql.imei r0 = IMEI d ∧ ql.path r0 = Path d)) as [[H1 H3]|Hn'].
      * rewrite update_row_match by done. simpl. unfold marshal_properties.
        destruct (Properties d) as [m|]; simpl; [|done].
        intros [= <-]. by eexists.
      * rewrite update_row_other by done. by apply Hb.
  - destruct IH as (Hr & Hn & Hb). pose proof Hr as (Hc & Ht & Hi).
    rewrite RemoveDongle_rows by done. simpl.
    split; [by repeat split|]. split.
    + by apply NoDup_fmap_filter.
    + intros r p [_ Hin]%list_elem_of_filter. by apply Hb.
Qed.

(** ** Reading rows *)

Lemma scan_fields (r : ql.Row) (d : Dongle) :
  scan r = Ok d →
  IMEI d = ql.imei r ∧ IMSI d = ql.imsi r ∧ Path d = ql.path r
  ∧ IsSymlinked d = ql.symlink r ∧ TTY d = ql.tty r ∧ ATI d = ql.ati r
  ∧ CreatedOn d = ql.created_on r ∧ UpdatedOn d = ql.updated_on r
  ∧ (ql.properties r = None → Properties d = None).
Proof.
  unfold scan. destruct (ql.properties r) as [p|].
  - destruct (json.Unmarshal p); [|done]. by intros [= <-].
  - by intros [= <-].
Qed.

Lemma scan_error (r : ql.Row) (e : error) : scan r = Err e → e = ql.ErrJSON.
Proof.
  unfold scan. destruct (ql.properties r) as [p|]; [|done].
  destruct (json.Unmarshal p); [done|]. by intros [= <-].
Qed.

Lemma scan_Marshal (r : ql.Row) :
  (∀ p, ql.properties r = Some p → ∃ m, p = json.Marshal m) →
  ∃ d, scan r = Ok d.
Proof.
  intros Hb. unfold scan. destruct (ql.properties r) as [p|]; [|by eexists].
  destruct (Hb p eq_refl) as [m ->].
  destruct (Unmarshal_Marshal_total m) as [m' ->]. by eexists.
Qed.

Lemma mapM_Ok {A B} (f : A → result B) (l : list A) (k : list B) :
  ql.mapM f l = Ok k ↔ Forall2 (λ x y, f x = Ok y) l k.
Proof.
  revert k. induction l as [|x l IH]; intros k; simpl.
  - split; [intros [= <-]; constructor|by inversion 1].
  - destruct (f x) as [y|e] eqn:Hx; simpl.
    + destruct (ql.mapM f l) as [ys|e] eqn:Hl; simpl.
      * split.
        -- intros [= <-]. constructor; [done|]. by apply IH.
        -- inversion 1 as [|? y' ? ys' Hy Hys]; subst.
           apply IH in Hys. congruence.
      * split; [done|]. inversion 1 as [|? y' ? ys' Hy Hys]; subst.
        by apply IH in Hys.
    + split; [done|]. inversion 1; congruence.
Qed.


Lemma filter_unique {A B} `{EqDecision B} (f : A → B) (l : list A) (x : A) :
  NoDup (f <$> l) → x ∈ l → filter (λ y, f y = f x) l = [x].
Proof.
  induction l as [|y l IH]; [by intros _ ?%elem_of_nil|].
  rewrite fmap_cons, NoDup_cons. intros [Hy Hl] [->|Hin]%elem_of_cons.
  - rewrite filter_cons_True by done. f_equal.
    apply filter_none. intros z Hz Hfz. apply Hy.
    apply list_elem_of_fmap. by exists z.
  - rewrite filter_cons_False; [by apply IH|].
    intros Hfy. apply Hy. rewrite Hfy. apply list_elem_of_fmap. by exists x.
Qed.

Lemma GetDongle_head db p :
  ql.closed db = false → ql.has_table db = true →
  GetDongle db p
  = match head (filter (λ r, ql.path r = p) (ql.rows db)) with
    | Some r => scan r
    | None => Err ql.ErrNoRows
    end.
Proof.
  intros Hc Ht. unfold GetDongle, scan_one, ql.select_by_path, ql.table.
  by rewrite Hc, Ht.
Qed.

Lemma GetDongleByIMEI_head db i :
  ql.closed db = false → ql.has_table db = true →
  GetDongleByIMEI db i
  = match head (filter (λ r, ql.imei r = i) (ql.rows db)) with
    | Some r => scan r
    | None => Err ql.ErrNoRows
    end.
Proof.
  intros Hc Ht. unfold GetDongleByIMEI, scan_one, ql.select_by_imei, ql.table.
  by rewrite Hc, Ht.
Qed.

Lemma GetAllDongles_rows db :
  ql.closed db = false → ql.has_table db = true →
  GetAllDongles db = ql.mapM scan (ql.rows db).
Proof.
  intros Hc Ht. unfold GetAllDongles, ql.table. by rewrite Hc, Ht.
Qed.

(** ** [CreateDongle]: when it fails *)

(** [CreateDongle] returns an error in three cases and no other: the handle
    is closed, the table is missing, or the index exists and a row already
    has the path. The error says which, and the store is left as it was. *)
Theorem CreateDongle_fails_iff (now1 now2 : Z) (db db' : ql.DB) (d : Dongle)
    (e : error) :
  CreateDongle now1 now2 db d = (db', Some e) ↔
  db' = db
  ∧ ((ql.closed db = true ∧ e = ql.ErrDatabaseClosed)
     ∨ (ql.closed db = false ∧ ql.has_table db = false
        ∧ e = ql.ErrTableNotExist)
     ∨ (ql.closed db = false ∧ ql.has_table db = true
        ∧ ql.has_index db = true
        ∧ (∃ r, r ∈ ql.rows db ∧ ql.path r = Path d)
        ∧ e = ql.ErrDuplicate)).
Proof.
  unfold CreateDongle, ql.transaction, ql.Begin.
  destruct (ql.closed db) eqn:Hc; simpl.
  { split; [intros [= <- <-]; split; [done|by left]|].
    intros [-> [[_ ->]|[(? & _)|(? & _)]]]; done. }
  destruct (ql.has_table db) eqn:Ht; simpl.
  2:{ split; [intros [= <- <-]; split; [done|right; by left]|].
      intros [-> [[? _]|[(_ & _ & ->)|(_ & ? & _)]]]; done. }
  destruct (ql.has_index db) eqn:Hi; simpl.
  2:{ split; [done|]. intros [_ [[? _]|[(_ & ? & _)|(_ & _ & ? & _)]]]; done. }
  case_bool_decide as Hin; simpl.
  - split.
    + intros [= <- <-]. split; [done|]. right; right.
      apply list_elem_of_fmap in Hin as (r & Hp & Hr). by eauto 10.
    + intros [-> [[? _]|[(_ & ? & _)|(_ & _ & _ & _ & ->)]]]; done.
  - split; [done|].
    intros [_ [[? _]|[(_ & ? & _)|(_ & _ & _ & (r & Hr & Hp) & _)]]]; try done.
    destruct Hin. apply list_elem_of_fmap. by exists r.
Qed.

(** ** The invariant of the package *)

(** Every store a client can hold is open, has the table and the index, and
    no two of its rows have the same path. *)
Theorem reachable_unique_paths (db : ql.DB) :
  reachable db → ready db ∧ NoDup (ql.path <$> ql.rows db).
Proof. intros H. apply reachable_inv in H as (? & ? & _). done. Qed.

Lemma reachable_unique_paths_witness :
  ready store3 ∧ NoDup (ql.path <$> ql.rows store3).
Proof.
  apply (reachable_unique_paths store3). unfold store3. cbv zeta.
  do 3 apply reachable_CreateDongle. by apply reachable_DB.
Defined.

(** On such a store the readers cannot meet a blob they do not decode:
    [GetAllDongles] returns one binding for each row, [GetDistinct]
    returns a list, and [GetDongle] returns a binding or [sql.ErrNoRows]. *)
Theorem reachable_readers (sort_Sort : list Dongle → list Dongle) (db : ql.DB) :
  reachable db → (∀ l, sort_Sort l ≡ₚ l) →
  (∃ a, GetAllDongles db = Ok a ∧ length a = length (ql.rows db))
  ∧ (∃ out, GetDistinct sort_Sort db = Ok out)
  ∧ ∀ p, (∃ d, GetDongle db p = Ok d) ∨ GetDongle db p = Err ql.ErrNoRows.
Proof.
  intros H Hsort. apply reachable_inv in H as ((Hc & Ht & Hi) & Hn & Hb).
  assert (Hall : ∃ a, GetAllDongles db = Ok a ∧ length a = length (ql.rows db)).
  { rewrite GetAllDongles_rows by done.
    assert (∀ l : list ql.Row,
      (∀ r, r ∈ l → ∃ d, scan r = Ok d) →
      ∃ a, ql.mapM scan l = Ok a ∧ length a = length l) as Hm.
    { induction l as [|r l IH]; intros Hl; [by exists []|].
      destruct (Hl r) as [d Hd]; [apply list_elem_of_here|].
      destruct IH as (a & Ha & Hlen).
      { intros r' Hr'. by apply Hl, list_elem_of_further. }
      exists (d :: a). simpl. rewrite Hd, Ha. simpl. by rewrite Hlen. }
    apply Hm. intros r Hr. apply scan_Marshal. intros p Hp. by eapply Hb. }
  split; [done|]. split.
  - destruct Hall as (a & Ha & _).
    destruct (GetDistinct_representatives sort_Sort db a Hsort Ha) as (out & ? & _).
    by exists out.
  - intros p. rewrite GetDongle_head by done.
    destruct (head _) as [r|] eqn:Hh; [left|by right].
    apply scan_Marshal. intros q Hq. eapply Hb; [|done].
    apply head_Some_elem_of, list_elem_of_filter in Hh. by destruct Hh.
Qed.

Lemma reachable_readers_witness :
  (∃ a, GetAllDongles store3 = Ok a ∧ length a = length (ql.rows store3))
  ∧ (∃ out, GetDistinct insertion_sort store3 = Ok out)
  ∧ ∀ p, (∃ d, GetDongle store3 p = Ok d)
         ∨ GetDongle store3 p = Err ql.ErrNoRows.
Proof.
  apply (reachable_readers insertion_sort store3).
  - unfold store3. cbv zeta. do 3 apply reachable_CreateDongle.
    by apply reachable_DB.
  - exact insertion_sort_perm.
Defined.

(** ** [CreateDongle] and the readers *)

(** After a successful [CreateDongle] of a binding with valid UTF-8
    properties, [GetAllDongles] lists what it listed before and the new
    binding, with the fields given and the time stamps of the insert. *)
Theorem CreateDongle_GetAllDongles (now1 now2 : Z) (db db' : ql.DB)
    (b : Dongle) (a : list Dongle) :
  valid_properties b = true →
  GetAllDongles db = Ok a →
  CreateDongle now1 now2 db b = (db', None) →
  ∃ a', GetAllDongles db' = Ok a' ∧ a' ≡ₚ stamped now1 now2 b :: a.
Proof.
  intros Hv Ha Hc. apply CreateDongle_success in Hc as (Hcl & Ht & ->).
  rewrite GetAllDongles_rows in Ha by done.
  exists (stamped now1 now2 b :: a). split; [|done].
  rewrite GetAllDongles_rows by done. simpl. rewrite Ha.
  unfold scan at 1, marshal_properties. simpl.
  destruct (Properties b) as [m|] eqn:Hp; simpl.
  - rewrite Unmarshal_Marshal
      by (intros k v Hl; by eapply valid_properties_lookup).
    unfold stamped. by rewrite Hp.
  - unfold stamped. by rewrite Hp.
Qed.

Lemma CreateDongle_GetAllDongles_witness :
  ∃ a', GetAllDongles (CreateDongle 7 8 storeACM binding_E173).1 = Ok a'
    ∧ a' ≡ₚ stamped 7 8 binding_E173
            :: [stamped 1 1 (binding "A" "/dev/ttyACM0" 0)].
Proof.
  apply (CreateDongle_GetAllDongles 7 8 storeACM _ binding_E173).
  - vm_compute. reflexivity.
  - reflexivity.
  - reflexivity.
Defined.

(** The guard agrees with the constraint: on a store with the schema, when
    [DongleExists] answers true for a binding, [CreateDongle] of that
    binding is refused as a duplicate and changes nothing. *)
Theorem DongleExists_CreateDongle (now1 now2 : Z) (db : ql.DB) (b : Dongle) :
  ready db → DongleExists db b = true →
  CreateDongle now1 now2 db b = (db, Some ql.ErrDuplicate).
Proof.
  intros Hr He. apply CreateDongle_taken; [done|].
  unfold DongleExists, DongleExists_logged, ql.select_count in He.
  rewrite table_ready in He by done. simpl in He. apply Z.ltb_lt in He.
  destruct (filter _ _) as [|r l] eqn:Hf; [simpl in He; lia|].
  assert (Hin : r ∈ r :: l) by apply list_elem_of_here.
  rewrite <- Hf in Hin. apply list_elem_of_filter in Hin as [(_ & _ & Hp) Hin].
  rewrite <- Hp. apply list_elem_of_fmap. by exists r.
Qed.

Lemma DongleExists_CreateDongle_witness :
  CreateDongle 7 8 store3 (binding "A" "/dev/ttyUSB0" 0)
  = (store3, Some ql.ErrDuplicate).
Proof.
  apply (DongleExists_CreateDongle 7 8 store3 (binding "A" "/dev/ttyUSB0" 0)).
  - by repeat split.
  - reflexivity.
Defined.

(** After a successful [CreateDongle] of a binding, [DongleExists] answers
    true for it. *)
Theorem CreateDongle_DongleExists (now1 now2 : Z) (db db' : ql.DB) (b : Dongle) :
  CreateDongle now1 now2 db b = (db', None) → DongleExists db' b = true.
Proof.
  intros Hc. apply CreateDongle_success in Hc as (Hcl & Ht & ->).
  unfold DongleExists, DongleExists_logged, ql.select_count, ql.table. simpl.
  rewrite Hcl, Ht. simpl. rewrite filter_cons_True by done. simpl.
  apply Z.ltb_lt. lia.
Qed.

Lemma CreateDongle_DongleExists_witness :
  DongleExists (CreateDongle 7 8 store0 binding_E173).1 binding_E173 = true.
Proof.
  apply (CreateDongle_DongleExists 7 8 store0 _ binding_E173). reflexivity.
Defined.

(** Whatever bytes the properties hold, a binding stored by [CreateDongle]
    on a store with the schema is read back by [GetDongle] without error,
    with every other field as given, the time stamps of the insert, and
    properties that are nil exactly when they were nil. *)
Theorem CreateDongle_GetDongle_any (now1 now2 : Z) (db db' : ql.DB) (b : Dongle) :
  ready db →
  CreateDongle now1 now2 db b = (db', None) →
  ∃ d, GetDongle db' (Path b) = Ok d
    ∧ IMEI d = IMEI b ∧ IMSI d = IMSI b ∧ Path d = Path b
    ∧ IsSymlinked d = IsSymlinked b ∧ TTY d = TTY b ∧ ATI d = ATI b
    ∧ CreatedOn d = now1 ∧ UpdatedOn d = now2
    ∧ (Properties d = None ↔ Properties b = None).
Proof.
  intros Hr Hc. pose proof (CreateDongle_fresh _ _ _ _ _ Hr Hc) as Hfresh.
  apply CreateDongle_success in Hc as (Hcl & Ht & ->).
  rewrite GetDongle_head by done. simpl.
  rewrite filter_cons_True by done. simpl.
  unfold scan, marshal_properties. simpl.
  destruct (Properties b) as [m|] eqn:Hp; simpl.
  - destruct (Unmarshal_Marshal_total m) as [m' ->].
    eexists. split; [reflexivity|]. simpl. by repeat split.
  - eexists. split; [reflexivity|]. simpl. by repeat split.
Qed.

Lemma CreateDongle_GetDongle_any_witness :
  ∃ d, GetDongle (CreateDongle 7 8 store0 binding_FF).1 (Path binding_FF) = Ok d
    ∧ IMEI d = IMEI binding_FF ∧ IMSI d = IMSI binding_FF
    ∧ Path d = Path binding_FF
    ∧ IsSymlinked d = IsSymlinked binding_FF ∧ TTY d = TTY binding_FF
    ∧ ATI d = ATI binding_FF
    ∧ CreatedOn d = 7 ∧ UpdatedOn d = 8
    ∧ (Properties d = None ↔ Properties binding_FF = None).
Proof.
  apply (CreateDongle_GetDongle_any 7 8 store0 _ binding_FF).
  - exact store0_ready.
  - reflexivity.
Defined.

(** ** [RemoveDongle] and the readers *)

Lemma filter_imei_removed (i : string) (l : list ql.Row) :
  filter (λ r, ql.imei r = i) (filter (λ r, ql.imei r ≠ i) l) = [].
Proof.
  apply filter_none. intros r [Hne _]%list_elem_of_filter. done.
Qed.

Lemma filter_imei_kept (P : ql.Row → Prop) `{∀ r, Decision (P r)}
    (i j : string) (l : list ql.Row) :
  (∀ r, P r → ql.imei r = i) → i ≠ j →
  filter P (filter (λ r, ql.imei r ≠ j) l) = filter P l.
Proof.
  intros HP Hij. induction l as [|r l IH]; [done|].
  rewrite (filter_cons (λ r, ql.imei r ≠ j)). case_decide as Hr.
  - rewrite !filter_cons. case_decide; by rewrite IH.
  - rewrite IH. rewrite (filter_cons_False P); [done|].
    intros Hp. apply Hij. rewrite <- (HP r Hp).
    destruct (decide (ql.imei r = j)); [done|]. by destruct Hr.
Qed.

(** After [RemoveDongle] on a store that can be written, the device is gone
    for every reader: [DongleExists] is false for any binding with its IMEI,
    [GetDongleByIMEI] finds no row, [GetSymlinkCandidate] fails on the NULL
    minimum, and no binding that [GetAllDongles] lists has its IMEI. *)
Theorem RemoveDongle_gone (db : ql.DB) (d : Dongle) :
  ql.closed db = false → ql.has_table db = true →
  ∃ db', RemoveDongle db d = (db', None)
    ∧ (∀ m, IMEI m = IMEI d → DongleExists db' m = false)
    ∧ GetDongleByIMEI db' (IMEI d) = Err ql.ErrNoRows
    ∧ GetSymlinkCandidate db' (IMEI d) = Err ql.ErrScanNull
    ∧ (∀ a x, GetAllDongles db' = Ok a → x ∈ a → IMEI x ≠ IMEI d).
Proof.
  intros Hc Ht. eexists. split; [by apply RemoveDongle_rows|].
  split; [|split; [|split]].
  - intros m Hm. unfold DongleExists, DongleExists_logged, ql.select_count,
      ql.table. simpl. rewrite Hc, Ht. simpl.
    rewrite filter_none; [done|].
    intros r [Hne _]%list_elem_of_filter (Hi & _). congruence.
  - rewrite GetDongleByIMEI_head by done. simpl.
    by rewrite filter_imei_removed.
  - unfold GetSymlinkCandidate, ql.select_min_tty, ql.table. simpl.
    rewrite Hc, Ht. simpl. by rewrite filter_imei_removed.
  - intros a x Ha Hx. rewrite GetAllDongles_rows in Ha by done. simpl in Ha.
    apply mapM_Ok in Ha. apply list_elem_of_lookup in Hx as [i Hx].
    destruct (Forall2_lookup_r _ _ _ _ _ Ha Hx) as (r & Hr & Hs).
    apply scan_fields in Hs as (-> & _).
    apply list_elem_of_lookup_2, list_elem_of_filter in Hr. by destruct Hr.
Qed.

Lemma RemoveDongle_gone_witness :
  ∃ db', RemoveDongle storeAB (binding "A" "/dev/ttyUSB9" 0) = (db', None)
    ∧ (∀ m, IMEI m = "A" → DongleExists db' m = false)
    ∧ GetDongleByIMEI db' "A" = Err ql.ErrNoRows
    ∧ GetSymlinkCandidate db' "A" = Err ql.ErrScanNull
    ∧ (∀ a x, GetAllDongles db' = Ok a → x ∈ a → IMEI x ≠ "A").
Proof.
  apply (RemoveDongle_gone storeAB (binding "A" "/dev/ttyUSB9" 0)); reflexivity.
Defined.

(** [RemoveDongle] leaves the other devices as they were: for any other
    IMEI, [GetDongleByIMEI] and the minimum TTY that [GetSymlinkCandidate]
    starts from are unchanged, and so is [DongleExists] for any binding
    with another IMEI. *)
Theorem RemoveDongle_others (db : ql.DB) (d : Dongle) (i : string) :
  ql.closed db = false → ql.has_table db = true → i ≠ IMEI d →
  ∃ db', RemoveDongle db d = (db', None)
    ∧ GetDongleByIMEI db' i = GetDongleByIMEI db i
    ∧ ql.select_min_tty db' i = ql.select_min_tty db i
    ∧ (∀ m, IMEI m = i → DongleExists db' m = DongleExists db m).
Proof.
  intros Hc Ht Hi. eexists. split; [by apply RemoveDongle_rows|].
  split; [|split].
  - rewrite !GetDongleByIMEI_head by done. simpl.
    by rewrite (filter_imei_kept _ i).
  - unfold ql.select_min_tty, ql.table. simpl. rewrite Hc, Ht. simpl.
    by rewrite (filter_imei_kept _ i).
  - intros m Hm. unfold DongleExists, DongleExists_logged, ql.select_count,
      ql.table. simpl. rewrite Hc, Ht. simpl.
    rewrite (filter_imei_kept _ i); [done| |done].
    intros r (Hr & _). congruence.
Qed.

Lemma RemoveDongle_others_witness :
  ∃ db', RemoveDongle storeAB (binding "A" "/dev/ttyUSB9" 0) = (db', None)
    ∧ GetDongleByIMEI db' "B" = GetDongleByIMEI storeAB "B"
    ∧ ql.select_min_tty db' "B" = ql.select_min_tty storeAB "B"
    ∧ (∀ m, IMEI m = "B" → DongleExists db' m = DongleExists storeAB m).
Proof.
  apply (RemoveDongle_others storeAB (binding "A" "/dev/ttyUSB9" 0) "B");
    [reflexivity|reflexivity|discriminate].
Defined.

(** ** [UpdateDongle] *)

(** With no row of the IMEI and path of the argument, [UpdateDongle] on a
    store that can be written reports success and changes nothing. *)
Theorem UpdateDongle_no_match (now : Z) (db : ql.DB) (d : Dongle) :
  ql.closed db = false → ql.has_table db = true →
  (∀ r, r ∈ ql.rows db → ¬ (ql.imei r = IMEI d ∧ ql.path r = Path d)) →
  UpdateDongle now db d = (db, None).
Proof.
  intros Hc Ht Hno. rewrite UpdateDongle_rows by done. f_equal.
  destruct db as [c t i l]. unfold ql.set_rows. simpl in *. f_equal.
  induction l as [|r l IH]; [done|]. rewrite fmap_cons. f_equal.
  - apply update_row_other, Hno, list_elem_of_here.
  - apply IH. intros r' Hr'. by apply Hno, list_elem_of_further.
Qed.

Lemma UpdateDongle_no_match_witness :
  UpdateDongle 9 store3 (binding "B" "/dev/ttyUSB0" 0) = (store3, None).
Proof.
  apply (UpdateDongle_no_match 9 store3 (binding "B" "/dev/ttyUSB0" 0));
    [reflexivity|reflexivity|].
  intros r Hr [Hi _]. vm_compute in Hr.
  repeat (apply elem_of_cons in Hr as [->|Hr]; [discriminate Hi|]).
  by apply elem_of_nil in Hr.
Defined.

(** [UpdateDongle] moves no binding: the rows keep their number and order,
    and each keeps its IMEI, its path and its ATI. *)
Theorem UpdateDongle_keeps (now : Z) (db : ql.DB) (d : Dongle) :
  ql.imei <$> ql.rows (UpdateDongle now db d).1 = ql.imei <$> ql.rows db
  ∧ ql.path <$> ql.rows (UpdateDongle now db d).1 = ql.path <$> ql.rows db
  ∧ ql.ati <$> ql.rows (UpdateDongle now db d).1 = ql.ati <$> ql.rows db.
Proof.
  unfold UpdateDongle, ql.transaction, ql.Begin.
  destruct (ql.closed db); [done|]. simpl.
  destruct (ql.has_table db); [|done]. simpl.
  rewrite <- !list_fmap_compose.
  repeat split; apply list_fmap_ext; intros i r _; simpl.
  - apply update_row_imei.
  - apply update_row_path.
  - apply update_row_ati.
Qed.

(** After [UpdateDongle] of a binding with valid UTF-8 properties that a
    row matches, on a store with unique paths, [GetDongle] on the path
    returns the IMSI, symlink flag, TTY and properties of the argument,
    with [CreatedOn] as the argument has it, [UpdatedOn] the time of the
    update and the ATI of the row. *)
Theorem UpdateDongle_GetDongle (now : Z) (db : ql.DB) (d : Dongle) (r : ql.Row) :
  ql.closed db = false → ql.has_table db = true →
  NoDup (ql.path <$> ql.rows db) →
  r ∈ ql.rows db → ql.imei r = IMEI d → ql.path r = Path d →
  valid_properties d = true →
  ∃ db', UpdateDongle now db d = (db', None)
    ∧ GetDongle db' (Path d)
      = Ok {| IMEI := IMEI d; IMSI := IMSI d; Path := Path d;
              IsSymlinked := IsSymlinked d; TTY := TTY d; ATI := ql.ati r;
              Properties := Properties d;
              CreatedOn := CreatedOn d; UpdatedOn := now |}.
Proof.
  intros Hc Ht Hn Hr Hi Hp Hv. eexists. split; [by apply UpdateDongle_rows|].
  rewrite GetDongle_head by done. simpl.
  set (f := ql.update_row _ _ _ _ _ _ _ _).
  assert (Hf : filter (λ r, ql.path r = Path d) (f <$> ql.rows db) = [f r]).
  { rewrite <- Hp. rewrite <- (update_row_path (IMEI d) (IMSI d) (ql.path r)
      (IsSymlinked d) (TTY d) (marshal_properties d) (CreatedOn d) now r).
    rewrite Hp. fold f.
    apply (filter_unique ql.path).
    - rewrite <- list_fmap_compose. erewrite list_fmap_ext; [exact Hn|].
      intros i x _. simpl. apply update_row_path.
    - apply list_elem_of_fmap. by exists r. }
  rewrite Hf. simpl. unfold f. rewrite update_row_match by done.
  unfold scan, marshal_properties. simpl.
  destruct (Properties d) as [m|] eqn:Hm; simpl; [|done].
  rewrite Unmarshal_Marshal
    by (intros k v Hl; by eapply valid_properties_lookup).
  done.
Qed.

Lemma UpdateDongle_GetDongle_witness :
  ∃ db', UpdateDongle 9 store3
           {| IMEI := "A"; IMSI := "640029999999999"; Path := "/dev/ttyUSB0";
              IsSymlinked := true; TTY := 0; ATI := "ignored";
              Properties := Properties binding_E173;
              CreatedOn := 2; UpdatedOn := 0 |} = (db', None)
    ∧ GetDongle db' "/dev/ttyUSB0"
      = Ok {| IMEI := "A"; IMSI := "640029999999999"; Path := "/dev/ttyUSB0";
              IsSymlinked := true; TTY := 0; ATI := "Manufacturer: huawei";
              Properties := Properties binding_E173;
              CreatedOn := 2; UpdatedOn := 9 |}.
Proof.
  apply (UpdateDongle_GetDongle 9 store3
    {| IMEI := "A"; IMSI := "640029999999999"; Path := "/dev/ttyUSB0";
       IsSymlinked := true; TTY := 0; ATI := "ignored";
       Properties := Properties binding_E173;
       CreatedOn := 2; UpdatedOn := 0 |}
    {| ql.imei := "A"; ql.imsi := "640021234567890"; ql.path := "/dev/ttyUSB0";
       ql.symlink := false; ql.tty := 0; ql.ati := "Manufacturer: huawei";
       ql.properties := None; ql.created_on := 2; ql.updated_on := 2 |}).
  - reflexivity.
  - reflexivity.
  - apply (bool_decide_unpack _). vm_compute. exact I.
  - vm_compute. apply list_elem_of_further, list_elem_of_here.
  - reflexivity.
  - reflexivity.
  - vm_compute. reflexivity.
Defined.

(** ** The point lookups *)

(** On a store that can be read, [GetDongle] answers with a binding of the
    path asked, read from a stored row, and [GetDongleByIMEI] with a binding
    of the IMEI asked; each returns [sql.ErrNoRows] exactly when no row has
    the path, or the IMEI. *)
Theorem lookups_sound (db : ql.DB) (key : string) :
  ql.closed db = false → ql.has_table db = true →
  (∀ d, GetDongle db key = Ok d →
     Path d = key ∧ ∃ r, r ∈ ql.rows db ∧ scan r = Ok d)
  ∧ (GetDongle db key = Err ql.ErrNoRows ↔
     ∀ r, r ∈ ql.rows db → ql.path r ≠ key)
  ∧ (∀ d, GetDongleByIMEI db key = Ok d →
     IMEI d = key ∧ ∃ r, r ∈ ql.rows db ∧ scan r = Ok d)
  ∧ (GetDongleByIMEI db key = Err ql.ErrNoRows ↔
     ∀ r, r ∈ ql.rows db → ql.imei r ≠ key).
Proof.
  intros Hc Ht.
  assert (Hgen : ∀ (P : ql.Row → Prop) `{∀ r, Decision (P r)},
    let res := match head (filter P (ql.rows db)) with
               | Some r => scan r
               | None => Err ql.ErrNoRows
               end in
    (∀ d, res = Ok d → ∃ r, r ∈ ql.rows db ∧ P r ∧ scan r = Ok d)
    ∧ (res = Err ql.ErrNoRows ↔ ∀ r, r ∈ ql.rows db → ¬ P r)).
  { intros P HP res. unfold res.
    destruct (filter P (ql.rows db)) as [|r l] eqn:Hf; simpl.
    - split; [done|]. split; [|done]. intros _ r Hr HPr.
      eapply (filter_nil_not_elem_of P); eauto.
    - assert (Hin : r ∈ filter P (ql.rows db))
        by (rewrite Hf; apply list_elem_of_here).
      apply list_elem_of_filter in Hin as [HPr Hin]. split.
      + intros d Hd. by exists r.
      + split.
        * intros He. apply scan_error in He. done.
        * intros Hall. by destruct (Hall r Hin). }
  rewrite GetDongle_head, GetDongleByIMEI_head by done.
  destruct (Hgen (λ r, ql.path r = key) _) as [Hp1 Hp2].
  destruct (Hgen (λ r, ql.imei r = key) _) as [Hi1 Hi2].
  split; [|split; [done|split; [|done]]].
  - intros d Hd. destruct (Hp1 d Hd) as (r & Hr & Hk & Hs).
    split; [|by exists r]. apply scan_fields in Hs as (_ & _ & -> & _). done.
  - intros d Hd. destruct (Hi1 d Hd) as (r & Hr & Hk & Hs).
    split; [|by exists r]. apply scan_fields in Hs as (-> & _). done.
Qed.

Lemma lookups_sound_witness :
  (∀ d, GetDongle store3 "A" = Ok d →
     Path d = "A" ∧ ∃ r, r ∈ ql.rows store3 ∧ scan r = Ok d)
  ∧ (GetDongle store3 "A" = Err ql.ErrNoRows ↔
     ∀ r, r ∈ ql.rows store3 → ql.path r ≠ "A")
  ∧ (∀ d, GetDongleByIMEI store3 "A" = Ok d →
     IMEI d = "A" ∧ ∃ r, r ∈ ql.rows store3 ∧ scan r = Ok d)
  ∧ (GetDongleByIMEI store3 "A" = Err ql.ErrNoRows ↔
     ∀ r, r ∈ ql.rows store3 → ql.imei r ≠ "A").
Proof.
  apply (lookups_sound store3 "A"); reflexivity.
Defined.

(** ** [GetSymlinkCandidate] *)

(** A binding that [GetSymlinkCandidate] returns sits on the path made of
    /dev/ttyUSB and the least TTY of the device asked for. *)
Theorem GetSymlinkCandidate_path (db : ql.DB) (imei : string) (d : Dongle) :
  GetSymlinkCandidate db imei = Ok d →
  ∃ r0, r0 ∈ ql.rows db ∧ ql.imei r0 = imei
    ∧ (∀ r, r ∈ ql.rows db → ql.imei r = imei → ql.tty r0 ≤ ql.tty r)
    ∧ Path d = "/dev/ttyUSB" +:+ pretty (ql.tty r0).
Proof.
  unfold GetSymlinkCandidate, ql.select_min_tty, ql.table.
  destruct (ql.closed db) eqn:Hc; [done|].
  destruct (ql.has_table db) eqn:Ht; [|done]. simpl.
  destruct (ql.min_of _) as [m|] eqn:Hm; [|done].
  apply min_of_Some in Hm as [Hin Hle].
  apply list_elem_of_fmap in Hin as (r0 & -> & Hr0).
  apply list_elem_of_filter in Hr0 as [Hi0 Hr0].
  intros Hd. exists r0. split; [done|]. split; [done|]. split.
  - intros r Hr Hi. apply Hle, list_elem_of_fmap. exists r.
    split; [done|]. by apply list_elem_of_filter.
  - rewrite GetDongle_head in Hd by done.
    destruct (head _) as [r|] eqn:Hh; [|done].
    apply head_Some_elem_of, list_elem_of_filter in Hh as [Hp _].
    apply scan_fields in Hd as (_ & _ & -> & _). done.
Qed.

Lemma GetSymlinkCandidate_path_witness :
  ∃ r0, r0 ∈ ql.rows store3 ∧ ql.imei r0 = "A"
    ∧ (∀ r, r ∈ ql.rows store3 → ql.imei r = "A" → ql.tty r0 ≤ ql.tty r)
    ∧ Path (stamped 2 2 (binding "A" "/dev/ttyUSB0" 0))
      = "/dev/ttyUSB" +:+ pretty (ql.tty r0).
Proof.
  apply (GetSymlinkCandidate_path store3 "A"
           (stamped 2 2 (binding "A" "/dev/ttyUSB0" 0))).
  reflexivity.
Defined.

(** When the rows of a device sit on the paths /dev/ttyUSB followed by their
    TTY and paths are unique, [GetSymlinkCandidate] reads the row of that
    device with the least TTY. *)
Theorem GetSymlinkCandidate_own_minimum (db : ql.DB) (imei : string) :
  ql.closed db = false → ql.has_table db = true →
  NoDup (ql.path <$> ql.rows db) →
  (∃ r, r ∈ ql.rows db ∧ ql.imei r = imei) →
  (∀ r, r ∈ ql.rows db → ql.imei r = imei →
     ql.path r = "/dev/ttyUSB" +:+ pretty (ql.tty r)) →
  ∃ r0, r0 ∈ ql.rows db ∧ ql.imei r0 = imei
    ∧ (∀ r, r ∈ ql.rows db → ql.imei r = imei → ql.tty r0 ≤ ql.tty r)
    ∧ GetSymlinkCandidate db imei = scan r0.
Proof.
  intros Hc Ht Hn (r & Hr & Hi) Hconv.
  unfold GetSymlinkCandidate, ql.select_min_tty, ql.table.
  rewrite Hc, Ht. simpl.
  destruct (ql.min_of _) as [m|] eqn:Hm.
  2:{ apply min_of_None, fmap_nil_inv in Hm.
      destruct (filter_some (λ r, ql.imei r = imei) (ql.rows db) r Hr Hi)
        as (y & l' & Hy). congruence. }
  apply min_of_Some in Hm as [Hin Hle].
  apply list_elem_of_fmap in Hin as (r0 & -> & Hr0).
  apply list_elem_of_filter in Hr0 as [Hi0 Hr0].
  exists r0. split; [done|]. split; [done|]. split.
  - intros r' Hr' Hi'. apply Hle, list_elem_of_fmap. exists r'.
    split; [done|]. by apply list_elem_of_filter.
  - rewrite GetDongle_head by done. unfold Sprintf_ttyUSB.
    rewrite <- (Hconv r0 Hr0 Hi0).
    by rewrite (filter_unique ql.path).
Qed.

Lemma GetSymlinkCandidate_own_minimum_witness :
  ∃ r0, r0 ∈ ql.rows storeAB ∧ ql.imei r0 = "A"
    ∧ (∀ r, r ∈ ql.rows storeAB → ql.imei r = "A" → ql.tty r0 ≤ ql.tty r)
    ∧ GetSymlinkCandidate storeAB "A" = scan r0.
Proof.
  apply (GetSymlinkCandidate_own_minimum storeAB "A").
  - reflexivity.
  - reflexivity.
  - apply (bool_decide_unpack _). vm_compute. exact I.
  - eexists. split; [vm_compute; apply list_elem_of_further, list_elem_of_here|].
    reflexivity.
  - intros r Hr Hi. vm_compute in Hr.
    repeat (apply elem_of_cons in Hr as [->|Hr];
            [first [reflexivity|discriminate Hi]|]).
    by apply elem_of_nil in Hr.
Defined.

(** ** [GetAllDongles] and [GetDistinct] *)






(** ** [Dongles] as a [sort.Interface] *)

(** [Swap] exchanges the two entries and nothing else, keeps [Len], and
    undoes itself; [Less] is irreflexive and transitive, and so is its
    complement, as [sort.Sort] needs. *)
Theorem Dongles_sort_Interface (a a' : list Dongle) (i j : nat) :
  Swap a i j = Some a' →
  Len a' = Len a
  ∧ (∀ k, a' !! k = if decide (k = j) then a !! i
                    else if decide (k = i) then a !! j else a !! k)
  ∧ Swap a' i j = Some a
  ∧ Less_at a i i = Some false
  ∧ (∀ k b1 b2, Less_at a i j = Some b1 → Less_at a j k = Some b2 →
       (b1 = true → b2 = true → Less_at a i k = Some true)
       ∧ (b1 = false → b2 = false → Less_at a i k = Some false)).
Proof.
  unfold Swap, Less_at, Len.
  destruct (a !! i) as [x|] eqn:Hi; [|done].
  destruct (a !! j) as [y|] eqn:Hj; [|done].
  intros [= <-].
  pose proof (lookup_lt_Some _ _ _ Hi) as Hli.
  pose proof (lookup_lt_Some _ _ _ Hj) as Hlj.
  assert (Hk : ∀ k, <[j:=x]> (<[i:=y]> a) !! k
                    = if decide (k = j) then Some x
                      else if decide (k = i) then Some y else a !! k).
  { intros k. case_decide as Hkj.
    - subst k. apply list_lookup_insert_eq. by rewrite length_insert.
    - rewrite list_lookup_insert_ne by done. case_decide as Hki.
      + subst k. by apply list_lookup_insert_eq.
      + by rewrite list_lookup_insert_ne. }
  split; [by rewrite !length_insert|]. split; [exact Hk|]. split.
  - rewrite !Hk. destruct (decide (i = j)) as [->|Hij].
    + rewrite decide_True by done.
      assert (x = y) as -> by congruence.
      by rewrite !(list_insert_id a j y).
    + rewrite (decide_True (P := j = j)), (decide_True (P := i = i)) by done.
      f_equal. apply list_eq. intros k.
      destruct (decide (k = j)) as [->|Hkj].
      * rewrite list_lookup_insert_eq by (by rewrite !length_insert). done.
      * rewrite list_lookup_insert_ne by done.
        destruct (decide (k = i)) as [->|Hki].
        -- rewrite list_lookup_insert_eq by (by rewrite !length_insert). done.
        -- rewrite list_lookup_insert_ne by done. rewrite Hk.
           by rewrite !decide_False.
  - split.
    + f_equal. unfold Less. apply Z.ltb_irrefl.
    + intros k b1 b2 [= <-]. destruct (a !! k) as [z|]; [|done].
      intros [= <-]. unfold Less. rewrite !Z.ltb_lt, !Z.ltb_ge. split.
      * intros H1 H2. f_equal. apply Z.ltb_lt. lia.
      * intros H1 H2. f_equal. apply Z.ltb_ge. lia.
Qed.

Lemma Dongles_sort_Interface_witness :
  Len [binding "A" "/dev/ttyUSB0" 0; binding "A" "/dev/ttyUSB2" 2]
  = Len [binding "A" "/dev/ttyUSB2" 2; binding "A" "/dev/ttyUSB0" 0]
  ∧ (∀ k, [binding "A" "/dev/ttyUSB0" 0; binding "A" "/dev/ttyUSB2" 2] !! k
          = if decide (k = 1%nat)
            then [binding "A" "/dev/ttyUSB2" 2; binding "A" "/dev/ttyUSB0" 0] !! 0%nat
            else if decide (k = 0%nat)
            then [binding "A" "/dev/ttyUSB2" 2; binding "A" "/dev/ttyUSB0" 0] !! 1%nat
            else [binding "A" "/dev/ttyUSB2" 2; binding "A" "/dev/ttyUSB0" 0] !! k)
  ∧ Swap [binding "A" "/dev/ttyUSB0" 0; binding "A" "/dev/ttyUSB2" 2] 0 1
    = Some [binding "A" "/dev/ttyUSB2" 2; binding "A" "/dev/ttyUSB0" 0]
  ∧ Less_at [binding "A" "/dev/ttyUSB2" 2; binding "A" "/dev/ttyUSB0" 0] 0 0
    = Some false
  ∧ (∀ k b1 b2,
       Less_at [binding "A" "/dev/ttyUSB2" 2; binding "A" "/dev/ttyUSB0" 0] 0 1
       = Some b1 →
       Less_at [binding "A" "/dev/ttyUSB2" 2; binding "A" "/dev/ttyUSB0" 0] 1 k
       = Some b2 →
       (b1 = true → b2 = true →
        Less_at [binding "A" "/dev/ttyUSB2" 2; binding "A" "/dev/ttyUSB0" 0] 0 k
        = Some true)
       ∧ (b1 = false → b2 = false →
          Less_at [binding "A" "/dev/ttyUSB2" 2; binding "A" "/dev/ttyUSB0" 0] 0 k
          = Some false)).
Proof.
  apply (Dongles_sort_Interface
           [binding "A" "/dev/ttyUSB2" 2; binding "A" "/dev/ttyUSB0" 0]
           [binding "A" "/dev/ttyUSB0" 0; binding "A" "/dev/ttyUSB2" 2] 0 1).
  reflexivity.
Defined.

(** ** How the writers compose *)

Lemma set_rows_id (db : ql.DB) : ql.set_rows db (ql.rows db) = db.
Proof. by destruct db. Qed.

Lemma filter_path_update (p : string) a1 a2 a3 a4 a5 a6 a7 now
    (l : list ql.Row) :
  p ≠ a3 →
  filter (λ r, ql.path r = p) (ql.update_row a1 a2 a3 a4 a5 a6 a7 now <$> l)
  = filter (λ r, ql.path r = p) l.
Proof.
  intros Hp. induction l as [|r l IH]; [done|].
  rewrite fmap_cons, !filter_cons, update_row_path, IH.
  case_decide as Hr; [|done]. f_equal.
  apply update_row_other. intros [_ H3]. congruence.
Qed.

(** [CreateDongle] and [UpdateDongle] leave every other path as it was:
    [GetDongle] on a path that is not the one of the argument answers the
    same before and after, whether the call succeeded or not. *)
Theorem writers_other_paths (now1 now2 : Z) (db : ql.DB) (d : Dongle)
    (p : string) :
  p ≠ Path d →
  GetDongle (CreateDongle now1 now2 db d).1 p = GetDongle db p
  ∧ GetDongle (UpdateDongle now1 db d).1 p = GetDongle db p.
Proof.
  intros Hp. split.
  - unfold CreateDongle, ql.transaction, ql.Begin.
    destruct (ql.closed db) eqn:Hc; [done|]. simpl.
    destruct (ql.has_table db) eqn:Ht; [|done]. simpl.
    destruct (ql.has_index db && _); [done|]. simpl.
    rewrite !GetDongle_head by done. simpl.
    by rewrite filter_cons_False by (simpl; congruence).
  - unfold UpdateDongle, ql.transaction, ql.Begin.
    destruct (ql.closed db) eqn:Hc; [done|]. simpl.
    destruct (ql.has_table db) eqn:Ht; [|done]. simpl.
    rewrite !GetDongle_head by done. simpl.
    by rewrite filter_path_update.
Qed.

Lemma writers_other_paths_witness :
  GetDongle (CreateDongle 7 8 store3 (binding "B" "/dev/ttyUSB5" 5)).1
    "/dev/ttyUSB0"
  = GetDongle store3 "/dev/ttyUSB0"
  ∧ GetDongle (UpdateDongle 7 store3 (binding "B" "/dev/ttyUSB5" 5)).1
      "/dev/ttyUSB0"
    = GetDongle store3 "/dev/ttyUSB0".
Proof.
  apply (writers_other_paths 7 8 store3 (binding "B" "/dev/ttyUSB5" 5)).
  discriminate.
Defined.

Lemma filter_all {A} (P : A → Prop) `{∀ x, Decision (P x)} (l : list A) :
  (∀ x, x ∈ l → P x) → filter P l = l.
Proof.
  induction l as [|x l IH]; intros Hl; [done|].
  rewrite filter_cons_True by apply Hl, list_elem_of_here.
  f_equal. apply IH. intros y Hy. by apply Hl, list_elem_of_further.
Qed.

(** [RemoveDongle] undoes the [CreateDongle] of the first binding of a
    device: when no row had the IMEI, inserting the binding and removing the
    device gives back the store as it was. *)
Theorem CreateDongle_RemoveDongle (now1 now2 : Z) (db db' : ql.DB) (b : Dongle) :
  (∀ r, r ∈ ql.rows db → ql.imei r ≠ IMEI b) →
  CreateDongle now1 now2 db b = (db', None) →
  RemoveDongle db' b = (db, None).
Proof.
  intros Hno Hc. apply CreateDongle_success in Hc as (Hcl & Ht & ->).
  rewrite RemoveDongle_rows by done. simpl.
  rewrite filter_cons_False by (simpl; intros H; by apply H).
  rewrite filter_all by done. by destruct db.
Qed.

Lemma CreateDongle_RemoveDongle_witness :
  RemoveDongle (CreateDongle 7 8 store3 (binding "B" "/dev/ttyUSB5" 5)).1
    (binding "B" "/dev/ttyUSB5" 5)
  = (store3, None).
Proof.
  apply (CreateDongle_RemoveDongle 7 8 store3 _ (binding "B" "/dev/ttyUSB5" 5)).
  - intros r Hr Hi. vm_compute in Hr.
    repeat (apply elem_of_cons in Hr as [->|Hr]; [discriminate Hi|]).
    by apply elem_of_nil in Hr.
  - reflexivity.
Defined.

(** Of two updates of the same binding in a row the last one wins: the
    store and the result are those of the second update alone. *)
Theorem UpdateDongle_last_wins (now1 now2 : Z) (db : ql.DB) (d1 d2 : Dongle) :
  IMEI d1 = IMEI d2 → Path d1 = Path d2 →
  UpdateDongle now2 (UpdateDongle now1 db d1).1 d2 = UpdateDongle now2 db d2.
Proof.
  intros Hi Hp. unfold UpdateDongle, ql.transaction, ql.Begin.
  destruct (ql.closed db) eqn:Hc; simpl; [by rewrite Hc|].
  destruct (ql.has_table db) eqn:Ht; simpl; [|by rewrite Hc; simpl; rewrite Ht].
  rewrite Hc. simpl. rewrite Ht. simpl. unfold ql.set_rows. simpl.
  do 2 f_equal. rewrite <- list_fmap_compose. apply list_fmap_ext.
  intros i r _. simpl. rewrite Hi, Hp.
  destruct (decide (ql.imei r = IMEI d2 ∧ ql.path r = Path d2)) as [[H1 H3]|Hn].
  - rewrite (update_row_match _ _ _ _ _ _ _ now1 r) by done.
    by rewrite !update_row_match.
  - by rewrite (update_row_other _ _ _ _ _ _ _ now1 r) by done.
Qed.

Lemma UpdateDongle_last_wins_witness :
  UpdateDongle 9
    (UpdateDongle 8 store3 (binding "A" "/dev/ttyUSB0" 0)).1 binding_E173
  = UpdateDongle 9 store3 binding_E173.
Proof.
  apply (UpdateDongle_last_wins 8 9 store3 (binding "A" "/dev/ttyUSB0" 0)
           binding_E173); reflexivity.
Defined.
